(** * rails-security-pr-digest: the rule evaluation engine

    A shallow embedding of [scripts/generate.mjs]: the loader [readRules],
    the helper [compileWeightedRegexMap], the scorer [scoreOne] and the
    scoring loop of [main], followed by the properties of the engine.

    Conventions of the embedding.
    - In the first embedding a number is an exact integer or [NaN]: the
      rule files carry integer weights, and the properties stated on it
      are about which hits are recorded and which record is returned,
      not about the value of a sum. What is said of the running score
      is stated on a second embedding of [scoreOne], in the module
      [Doubles], whose numbers are the binary64 values of the language
      and whose addition rounds.
    - A value that may be [null] or [undefined] where the code guards it
      with [??] or [??=] is an [option]; a scalar read from the rule file
      and passed to [Number] is a [value].
    - An exception is the [Throw] branch of [Completion].
    - The two built-ins whose behaviour the code takes from the host, the
      regular expression engine and the reading of a string as a number,
      are the fields of the class [Host]; every general theorem holds for
      every host. *)

From Stdlib Require Import ZArith String Ascii List Bool Lia Floats.
From stdpp Require Import base option list strings gmap.

Local Open Scope string_scope.
Local Open Scope Z_scope.
Local Open Scope list_scope.

(** ** Numbers and scalar values *)

Inductive number : Type :=
| Num (z : Z)
| NaN.

(** [a + b] *)
Definition num_add (a b : number) : number :=
  match a, b with
  | Num x, Num y => Num (x + y)
  | _, _ => NaN
  end.

(** [a >= b]: false as soon as one side is [NaN]. *)
Definition num_ge (a b : number) : bool :=
  match a, b with
  | Num x, Num y => y <=? x
  | _, _ => false
  end.

(** The truth value of a number in a condition: [0] and [NaN] are falsy. *)
Definition num_truthy (n : number) : bool :=
  match n with
  | Num z => negb (z =? 0)
  | NaN => false
  end.

(** [a || b] on numbers. *)
Definition num_or (a b : number) : number :=
  if num_truthy a then a else b.

(** A scalar of the loaded rule document. *)
Inductive value : Type :=
| VUndefined
| VNull
| VBool (b : bool)
| VNum (n : number)
| VStr (s : string).

(** [v ?? d] *)
Definition coalesce (v d : value) : value :=
  match v with
  | VUndefined | VNull => d
  | _ => v
  end.

(** ** The host: regular expressions and numeric strings *)

Class Host : Type := {
  RegExp : Type;
  (** [new RegExp(p)]: [None] when the pattern text is rejected
      (a SyntaxError). *)
  regexp_new : string -> option RegExp;
  (** [re.test(s)]; a regular expression built without flags keeps no
      state between tests. *)
  regexp_test : RegExp -> string -> bool;
  (** [Number(s)] on a string. *)
  StringToNumber : string -> number
}.

(** ** Exceptions *)

Inductive Error : Type :=
| SyntaxError (pattern : string)
| TypeError.

Inductive Completion (A : Type) : Type :=
| Return (a : A)
| Throw (e : Error).
Arguments Return {A} a.
Arguments Throw {A} e.

Definition bind {A B : Type} (c : Completion A) (k : A -> Completion B)
  : Completion B :=
  match c with
  | Return a => k a
  | Throw e => Throw e
  end.

Notation "'let*' x ':=' c1 'in' c2" := (bind c1 (fun x => c2))
  (at level 10, x name, c1 at level 100, c2 at level 200).

(** [xs.map(f)] where [f] may throw: the first exception ends the map. *)
Fixpoint mapC {A B : Type} (f : A -> Completion B) (xs : list A)
  : Completion (list B) :=
  match xs with
  | [] => Return []
  | x :: xs' => let* y := f x in let* ys := mapC f xs' in Return (y :: ys)
  end.

(** A [for ... of] loop whose body may throw. *)
Fixpoint foldC {A S : Type} (body : S -> A -> Completion S) (xs : list A)
  (s : S) : Completion S :=
  match xs with
  | [] => Return s
  | x :: xs' => let* s' := body s x in foldC body xs' s'
  end.

(** Reading a property of a section that is [null] or [undefined]. *)
Definition deref {A : Type} (o : option A) : Completion A :=
  match o with
  | Some a => Return a
  | None => Throw TypeError
  end.

(** ** The rule document *)

Record Window : Type := {
  win_type : value;
  win_value : value
}.

Record Decision : Type := {
  threshold : value
}.

Record StrongSignals : Type := {
  patterns : option (list string)
}.

(** [labelWeights] is only read by key; the two pattern maps are only
    walked with [Object.entries], so they are kept as their entry lists. *)
Record Scoring : Type := {
  labelWeights : option (gmap string value);
  textKeywordWeights : option (list (string * value));
  pathWeights : option (list (string * value))
}.

Record GuideMapping : Type := {
  tag : string;
  scoreBonus : value;
  keywords : option (list string);
  paths : option (list string)
}.

Record Rules : Type := {
  window : option Window;
  decision : option Decision;
  strongSignals : option StrongSignals;
  scoring : option Scoring;
  securityGuideMapping : option (list GuideMapping)
}.

(** [{}] *)
Definition emptyRules : Rules :=
  {| window := None; decision := None; strongSignals := None;
     scoring := None; securityGuideMapping := None |}.

(** [readRules], from the loaded document on ([yaml.load(raw)], [None]
    when it is [null] or [undefined]). *)
Definition readRules (loaded : option Rules) : Rules :=
  let rules := default emptyRules loaded in
  {| window :=
       Some (default {| win_type := VStr "hours"; win_value := VNum (Num 24) |}
                     (window rules));
     decision :=
       Some (default {| threshold := VNum (Num 8) |} (decision rules));
     strongSignals :=
       Some (default {| patterns := Some [] |} (strongSignals rules));
     scoring :=
       Some (default {| labelWeights := Some ∅;
                        textKeywordWeights := Some [];
                        pathWeights := Some [] |} (scoring rules));
     securityGuideMapping :=
       Some (default [] (securityGuideMapping rules)) |}.

(** ** Items, hits and the decision record *)

Record Item : Type := {
  title : option string;
  body : option string;
  labels : list string;
  files : list string
}.

(** The [type] of a hit: ["label"], ["text"], ["path"] or ["guide"]. *)
Inductive HitType : Type := Label | Text | Path | Guide.

Record Hit : Type := {
  type : HitType;
  what : string;
  file : option string;
  w : number
}.

Record DecisionRecord : Type := {
  adopt : bool;
  score : number;
  strongHit : string;
  tags : list string;
  hits : list Hit
}.

(** The two accumulators [score] and [hits] of [scoreOne]. *)
Record Tally : Type := {
  t_score : number;
  t_hits : list Hit
}.

(** [score += h.w; hits.push(h)] *)
Definition contribute (h : Hit) (t : Tally) : Tally :=
  {| t_score := num_add (t_score t) (w h); t_hits := t_hits t ++ [h] |}.

Definition newline : string := String (ascii_of_nat 10) EmptyString.

Section Engine.
Context `{H : Host}.

(** [Number(v)] *)
Definition Number (v : value) : number :=
  match v with
  | VUndefined => NaN
  | VNull => Num 0
  | VBool b => Num (if b then 1 else 0)
  | VNum n => n
  | VStr s => StringToNumber s
  end.

(** [new RegExp(p)] *)
Definition newRegExp (p : string) : Completion RegExp :=
  match regexp_new p with
  | Some re => Return re
  | None => Throw (SyntaxError p)
  end.

Record WeightedRegex : Type := {
  re : RegExp;
  pattern : string;
  weight : number
}.

Definition compileWeightedRegexMap (obj : option (list (string * value)))
  : Completion (list WeightedRegex) :=
  mapC (fun e : string * value =>
          let* r := newRegExp (fst e) in
          Return {| re := r; pattern := fst e;
                    weight := num_or (Number (snd e)) (Num 0) |})
       (default [] obj).

(** The strong-signal loop: the pattern that ends it, or the initial
    empty string. *)
Fixpoint strongLoop (text : string) (ps : list string) : Completion string :=
  match ps with
  | [] => Return EmptyString
  | p :: ps' =>
      let* r := newRegExp p in
      if regexp_test r text then Return p else strongLoop text ps'
  end.

(** The body of the label loop. A key that [lw] does not own reads as
    [undefined]; the few keys every object inherits read as objects on
    which [Number] gives [NaN], which the condition treats like the [0]
    that [undefined] is replaced by. *)
Definition labelStep (lw : gmap string value) (t : Tally) (l : string)
  : Tally :=
  let w := Number (coalesce (default VUndefined (lw !! l)) (VNum (Num 0))) in
  if num_truthy w
  then contribute {| type := Label; what := l; file := None; w := w |} t
  else t.

Definition textStep (text : string) (t : Tally) (r : WeightedRegex) : Tally :=
  if regexp_test (re r) text
  then contribute {| type := Text; what := pattern r; file := None;
                 w := weight r |} t
  else t.

Definition fileStep (r : WeightedRegex) (t : Tally) (f : string) : Tally :=
  if regexp_test (re r) f
  then contribute {| type := Path; what := pattern r; file := Some f;
                 w := weight r |} t
  else t.

Definition pathStep (files : list string) (t : Tally) (r : WeightedRegex)
  : Tally :=
  fold_left (fileStep r) files t.

(** The condition of one guide mapping: its patterns are all compiled,
    keywords first, before any is tested. *)
Definition guideFires (text : string) (files : list string)
  (m : GuideMapping) : Completion bool :=
  let* kwRes := mapC newRegExp (default [] (keywords m)) in
  let* pRes := mapC newRegExp (default [] (paths m)) in
  let kwHit := existsb (fun r => regexp_test r text) kwRes in
  let pHit :=
    existsb (fun f => existsb (fun r => regexp_test r f) pRes) files in
  Return (kwHit || pHit).

Definition guideHit (m : GuideMapping) : Hit :=
  {| type := Guide; what := tag m; file := None;
     w := Number (coalesce (scoreBonus m) (VNum (Num 0))) |}.

(** The body of the guide loop on the pair of [tags] and the tally. *)
Definition guideStep (text : string) (files : list string)
  (s : list string * Tally) (m : GuideMapping)
  : Completion (list string * Tally) :=
  let bonus := Number (coalesce (scoreBonus m) (VNum (Num 0))) in
  let* fired := guideFires text files m in
  if fired
  then
    let tags := fst s ++ [tag m] in
    if num_truthy bonus
    then Return (tags, contribute (guideHit m) (snd s))
    else Return (tags, snd s)
  else Return s.

(** The title, two newlines and the body, each the empty string when
    it is [null] or [undefined]. *)
Definition combinedText (it : Item) : string :=
  default EmptyString (title it) +:+ newline +:+ newline
  +:+ default EmptyString (body it).

Definition scoreOne (it : Item) (rules : Rules) : Completion DecisionRecord :=
  let text := combinedText it in
  let* ss := deref (strongSignals rules) in
  let* strongHit := strongLoop text (default [] (patterns ss)) in
  let* sc := deref (scoring rules) in
  let lw := default ∅ (labelWeights sc) in
  let t0 := {| t_score := Num 0; t_hits := [] |} in
  let t1 := fold_left (labelStep lw) (labels it) t0 in
  let* textRes := compileWeightedRegexMap (textKeywordWeights sc) in
  let t2 := fold_left (textStep text) textRes t1 in
  let* pathRes := compileWeightedRegexMap (pathWeights sc) in
  let t3 := fold_left (pathStep (files it)) pathRes t2 in
  let* s4 := foldC (guideStep text (files it))
                   (default [] (securityGuideMapping rules)) ([], t3) in
  let* d := deref (decision rules) in
  let threshold := Number (coalesce (threshold d) (VNum (Num 8))) in
  let adopt :=
    negb (String.eqb strongHit EmptyString)
    || num_ge (t_score (snd s4)) threshold in
  Return {| adopt := adopt; score := t_score (snd s4);
            strongHit := strongHit; tags := fst s4;
            hits := t_hits (snd s4) |}.

(** The scoring loop of [main] over the pull requests that reached
    [scoreOne], in order: the adopted ones with their records. An
    exception leaves [main], and no digest is written. *)
Definition pickStep (rules : Rules) (picked : list (Item * DecisionRecord))
  (it : Item) : Completion (list (Item * DecisionRecord)) :=
  let* r := scoreOne it rules in
  if adopt r then Return (picked ++ [(it, r)]) else Return picked.

(** [Number(rules.window?.value ?? 24)], the look-back of [main] in
    hours. *)
Definition windowHours (rules : Rules) : number :=
  Number (coalesce (default VUndefined (win_value <$> window rules))
                   (VNum (Num 24))).

Definition main (loaded : option Rules) (items : list Item)
  : Completion (list (Item * DecisionRecord)) :=
  let rules := readRules loaded in
  foldC (pickStep rules) items [].

End Engine.

(** ** A host to run the engine on concrete inputs

    [literalHost] agrees with the JavaScript built-ins on the inputs used
    in the examples below: a pattern made of letters, digits, spaces and
    the marks [-], [_], [/] has no special character, so it matches a
    string exactly when it occurs in it (the empty pattern occurs
    everywhere); the pattern ["("] is rejected as an unterminated group;
    a string of decimal digits reads as that integer, the empty string as
    [0], and a word such as ["high"] as [NaN]. Every other pattern is
    rejected and every other string read as [NaN] by this instance, which
    is used on no such input. *)
Module Literal.

Definition plain (c : ascii) : bool :=
  let n := nat_of_ascii c in
  ((48 <=? n) && (n <=? 57) || (65 <=? n) && (n <=? 90)
   || (97 <=? n) && (n <=? 122) || (n =? 32) || (n =? 45) || (n =? 95)
   || (n =? 47))%nat.

Fixpoint all_plain (p : string) : bool :=
  match p with
  | EmptyString => true
  | String c p' => plain c && all_plain p'
  end.

Fixpoint occurs (p s : string) : bool :=
  String.prefix p s
  || match s with
     | EmptyString => false
     | String _ s' => occurs p s'
     end.

Definition digit (c : ascii) : option Z :=
  let n := nat_of_ascii c in
  if ((48 <=? n) && (n <=? 57))%nat then Some (Z.of_nat n - 48) else None.

Fixpoint digits (acc : Z) (s : string) : number :=
  match s with
  | EmptyString => Num acc
  | String c s' =>
      match digit c with
      | Some d => digits (10 * acc + d) s'
      | None => NaN
      end
  end.

#[export] Instance literalHost : Host := {|
  RegExp := string;
  regexp_new p := if all_plain p then Some p else None;
  regexp_test p s := occurs p s;
  StringToNumber s := digits 0 s
|}.

End Literal.
Import Literal.

(** ** Vocabulary of the properties *)

(** The sum of the [w] fields of a trail, taken from [0] in trail order. *)
Definition sum_weights (hs : list Hit) : number :=
  fold_left num_add (map w hs) (Num 0).

(** The tally after the hits [hs] have been contributed one by one. *)
Definition extend (t : Tally) (hs : list Hit) : Tally :=
  {| t_score := fold_left num_add (map w hs) (t_score t);
     t_hits := t_hits t ++ hs |}.

(** The same document with one part replaced. *)
Definition withPatterns (ps : list string) (rules : Rules) : Rules :=
  {| window := window rules; decision := decision rules;
     strongSignals := Some {| patterns := Some ps |};
     scoring := scoring rules;
     securityGuideMapping := securityGuideMapping rules |}.

Definition withTextKeywordWeights (es : list (string * value)) (rules : Rules)
  : Rules :=
  {| window := window rules; decision := decision rules;
     strongSignals := strongSignals rules;
     scoring :=
       (fun sc => {| labelWeights := labelWeights sc;
                     textKeywordWeights := Some es;
                     pathWeights := pathWeights sc |}) <$> scoring rules;
     securityGuideMapping := securityGuideMapping rules |}.

Definition withPathWeights (es : list (string * value)) (rules : Rules)
  : Rules :=
  {| window := window rules; decision := decision rules;
     strongSignals := strongSignals rules;
     scoring :=
       (fun sc => {| labelWeights := labelWeights sc;
                     textKeywordWeights := textKeywordWeights sc;
                     pathWeights := Some es |}) <$> scoring rules;
     securityGuideMapping := securityGuideMapping rules |}.

Definition withGuideMapping (ms : list GuideMapping) (rules : Rules) : Rules :=
  {| window := window rules; decision := decision rules;
     strongSignals := strongSignals rules; scoring := scoring rules;
     securityGuideMapping := Some ms |}.

Definition withLabels (ls : list string) (it : Item) : Item :=
  {| title := title it; body := body it; labels := ls; files := files it |}.

(** The pattern strings of one guide mapping. *)
Definition guidePatterns (m : GuideMapping) : list string :=
  default [] (keywords m) ++ default [] (paths m).

(** Every pattern string of a rule document. *)
Definition configuredPatterns (rules : Rules) : list string :=
  default [] (strongSignals rules ≫= patterns)
  ++ map fst (default [] (scoring rules ≫= textKeywordWeights))
  ++ map fst (default [] (scoring rules ≫= pathWeights))
  ++ flat_map guidePatterns (default [] (securityGuideMapping rules)).

(** The patterns that every evaluation compiles: all but the strong
    signals, whose loop may end early. *)
Definition scoringPatterns (rules : Rules) : list string :=
  map fst (default [] (scoring rules ≫= textKeywordWeights))
  ++ map fst (default [] (scoring rules ≫= pathWeights))
  ++ flat_map guidePatterns (default [] (securityGuideMapping rules)).

Section Vocabulary.
Context `{H : Host}.

(** The pattern text is rejected by [new RegExp]. *)
Definition malformed (p : string) : bool :=
  match regexp_new p with
  | Some _ => false
  | None => true
  end.

(** The exception [e] is the rejection of one of the patterns [ps]. *)
Definition rejected (ps : list string) (e : Error) : Prop :=
  exists q, e = SyntaxError q /\ In q ps /\ malformed q = true.

(** The pattern compiles and its regular expression matches [s]. *)
Definition matches (p s : string) : bool :=
  match regexp_new p with
  | Some r => regexp_test r s
  | None => false
  end.

(** [Number(lw[l] ?? 0)] *)
Definition labelWeight (lw : gmap string value) (l : string) : number :=
  Number (coalesce (default VUndefined (lw !! l)) (VNum (Num 0))).

(** The hits each loop body appends, as lists. *)
Definition labelHits (lw : gmap string value) (l : string) : list Hit :=
  if num_truthy (labelWeight lw l)
  then [ {| type := Label; what := l; file := None;
            w := labelWeight lw l |} ]
  else [].

Definition textHits (text : string) (r : WeightedRegex) : list Hit :=
  if regexp_test (re r) text
  then [ {| type := Text; what := pattern r; file := None; w := weight r |} ]
  else [].

Definition pathHit (r : WeightedRegex) (f : string) : Hit :=
  {| type := Path; what := pattern r; file := Some f; w := weight r |}.

Definition pathHits (files : list string) (r : WeightedRegex) : list Hit :=
  map (pathHit r) (filter (fun f => regexp_test (re r) f = true) files).

Definition bonusHits (m : GuideMapping) : list Hit :=
  if num_truthy (w (guideHit m)) then [ guideHit m ] else [].

(** [a.filter(f)] where [f] may throw. *)
Fixpoint filterC {A : Type} (f : A -> Completion bool) (xs : list A)
  : Completion (list A) :=
  match xs with
  | [] => Return []
  | x :: xs' =>
      let* b := f x in
      let* ys := filterC f xs' in
      Return (if b then x :: ys else ys)
  end.

(** One compiled entry of a weighted pattern map. *)
Definition compiled (e : string * value) (r : WeightedRegex) : Prop :=
  regexp_new (fst e) = Some (re r) /\ pattern r = fst e
  /\ weight r = num_or (Number (snd e)) (Num 0).

(** The trail of an evaluation: labels, text, paths, guide, in that
    order. *)
Definition trail (it : Item) (lw : gmap string value)
  (textRes pathRes : list WeightedRegex) (fired : list GuideMapping)
  : list Hit :=
  flat_map (labelHits lw) (labels it)
  ++ flat_map (textHits (combinedText it)) textRes
  ++ flat_map (pathHits (files it)) pathRes
  ++ flat_map bonusHits fired.

(** The record that [scoreOne] returns for a strong-signal result, a
    threshold, the tags and a trail. *)
Definition assemble (sh : string) (thr : number) (tgs : list string)
  (hs : list Hit) : DecisionRecord :=
  {| adopt := negb (String.eqb sh EmptyString) || num_ge (sum_weights hs) thr;
     score := sum_weights hs; strongHit := sh; tags := tgs; hits := hs |}.

End Vocabulary.

(** The rule document in which every section is written out with the
    defaults named by the specification: a window of 24 hours, a
    threshold of 8, empty weight maps and empty pattern sequences. *)
Definition explicitDefaults : Rules :=
  {| window := Some {| win_type := VStr "hours"; win_value := VNum (Num 24) |};
     decision := Some {| threshold := VNum (Num 8) |};
     strongSignals := Some {| patterns := Some [] |};
     scoring := Some {| labelWeights := Some ∅; textKeywordWeights := Some [];
                        pathWeights := Some [] |};
     securityGuideMapping := Some [] |}.

(** The rule document in which every section is present and empty. *)
Definition bareSections : Rules :=
  {| window := Some {| win_type := VUndefined; win_value := VUndefined |};
     decision := Some {| threshold := VUndefined |};
     strongSignals := Some {| patterns := None |};
     scoring := Some {| labelWeights := None; textKeywordWeights := None;
                        pathWeights := None |};
     securityGuideMapping := Some [] |}.

(** [doc] with each missing section taken from [dflt]. *)
Definition fillMissing (dflt doc : Rules) : Rules :=
  {| window := from_option Some (window dflt) (window doc);
     decision := from_option Some (decision dflt) (decision doc);
     strongSignals := from_option Some (strongSignals dflt) (strongSignals doc);
     scoring := from_option Some (scoring dflt) (scoring doc);
     securityGuideMapping :=
       from_option Some (securityGuideMapping dflt)
                   (securityGuideMapping doc) |}.

(** ** Sample data *)
Module Samples.

Definition pr : Item :=
  {| title := Some "Fix escaping";
     body := Some "See CVE-2024-1111";
     labels := ["security"; "docs"];
     files := ["lib/a.rb"; "test/a_test.rb"; "lib/a.rb"] |}.

Definition xss : GuideMapping :=
  {| tag := "xss"; scoreBonus := VNum (Num 3);
     keywords := Some ["escaping"]; paths := None |}.

Definition csrf : GuideMapping :=
  {| tag := "csrf"; scoreBonus := VUndefined;
     keywords := None; paths := Some ["lib/"] |}.

Definition sampleScoring : Scoring :=
  {| labelWeights :=
       Some {[ "security" := VNum (Num 5); "docs" := VNum (Num 0) ]};
     textKeywordWeights :=
       Some [("CVE", VNum (Num 6)); ("escaping", VStr "high")];
     pathWeights := Some [("lib/", VNum (Num 2)); ("test/", VNull)] |}.

(** A rule file without [window] and [decision] sections. *)
Definition digestRules (strong : list string) : Rules :=
  {| window := None;
     decision := None;
     strongSignals := Some {| patterns := Some strong |};
     scoring := Some sampleScoring;
     securityGuideMapping := Some [xss; csrf] |}.

(** The loaded rules of the running example: the third strong-signal
    pattern is an unterminated group. *)
Definition sampleRules : Rules :=
  readRules (Some (digestRules ["security fix"; "CVE"; "("])).

Definition sampleSignals : StrongSignals :=
  {| patterns := Some ["security fix"; "CVE"; "("] |}.

Definition defaultDecision : Decision := {| threshold := VNum (Num 8) |}.

Definition libHit : Hit :=
  {| type := Path; what := "lib/"; file := Some "lib/a.rb"; w := Num 2 |}.

Definition sampleTrail : list Hit :=
  [ {| type := Label; what := "security"; file := None; w := Num 5 |};
    {| type := Text; what := "CVE"; file := None; w := Num 6 |};
    {| type := Text; what := "escaping"; file := None; w := Num 0 |};
    {| type := Path; what := "lib/"; file := Some "lib/a.rb"; w := Num 2 |};
    {| type := Path; what := "lib/"; file := Some "lib/a.rb"; w := Num 2 |};
    {| type := Path; what := "test/"; file := Some "test/a_test.rb";
       w := Num 0 |};
    {| type := Guide; what := "xss"; file := None; w := Num 3 |} ].

(** The record of [pr] under [digestRules] for a strong-signal result. *)
Definition sampleRecord (sh : string) : DecisionRecord :=
  {| adopt := true; score := Num 18; strongHit := sh;
     tags := ["xss"; "csrf"]; hits := sampleTrail |}.

(** A rule file with strong-signal patterns only. *)
Definition strongOnly (strong : list string) : Rules :=
  {| window := None; decision := None;
     strongSignals := Some {| patterns := Some strong |};
     scoring := None; securityGuideMapping := None |}.

Definition bareRecord (a : bool) (sh : string) : DecisionRecord :=
  {| adopt := a; score := Num 0; strongHit := sh; tags := []; hits := [] |}.

(** Loaded rules whose only strong signal is the empty pattern. *)
Definition emptyOnlyRules : Rules :=
  readRules (Some (strongOnly [EmptyString])).

(** Loaded rules in which the empty pattern stands behind a strong
    signal that matches the text of [pr]. *)
Definition emptyBehindRules : Rules :=
  readRules (Some (strongOnly ["CVE"; EmptyString])).

(** Loaded rules in which the empty pattern is the first strong signal
    to match the text of [pr]. *)
Definition emptyFirstRules : Rules :=
  readRules (Some (strongOnly ["security fix"; EmptyString; "CVE"])).

(** A rule file whose only text keyword is an unterminated group. *)
Definition brokenRules : Rules :=
  {| window := None; decision := None; strongSignals := None;
     scoring := Some {| labelWeights := None;
                        textKeywordWeights := Some [("(", VNum (Num 5))];
                        pathWeights := None |};
     securityGuideMapping := None |}.

End Samples.

(** ** Further vocabulary of the engine *)

Definition withFiles (fs : list string) (it : Item) : Item :=
  {| title := title it; body := body it; labels := labels it; files := fs |}.

Section MoreVocabulary.
Context `{H : Host}.

(** The condition of a guide mapping on patterns that compile: one of
    its keywords matches the text, or one of its path patterns matches
    one of the files. *)
Definition fires (text : string) (files : list string) (m : GuideMapping)
  : bool :=
  existsb (fun k => matches k text) (default [] (keywords m))
  || existsb (fun f => existsb (fun p => matches p f) (default [] (paths m)))
             files.

End MoreVocabulary.

(** ** The small helpers of the script *)

Definition pipe : ascii := ascii_of_nat 124.
Definition backslash : ascii := ascii_of_nat 92.

(** [s.replace(/\|/g, "\\|")]: every [|] becomes a backslash followed by
    [|]. *)
Fixpoint escapePipes (s : string) : string :=
  match s with
  | EmptyString => EmptyString
  | String c s' =>
      if Ascii.eqb c pipe
      then String backslash (String pipe (escapePipes s'))
      else String c (escapePipes s')
  end.

(** [mdEscape(s)] for a string, [null] or [undefined]. *)
Definition mdEscape (s : option string) : string :=
  escapePipes (default EmptyString s).

(** The number of [|] in a string. *)
Fixpoint pipes (s : string) : nat :=
  match s with
  | EmptyString => 0%nat
  | String c s' => ((if Ascii.eqb c pipe then 1 else 0) + pipes s')%nat
  end.

(** [ymdFromIso(iso)], that is [iso.slice(0, 10)]. *)
Definition ymdFromIso (iso : string) : string := String.substring 0 10 iso.

(** ** JSON values and the GitHub helpers

    The responses of the GitHub API are JSON values. [ghFetch] is taken
    as a function from the request to its outcome: the value that
    [res.json()] gives, or the exception that [ghFetch] throws. A request
    stands for the URL the code builds: the search for merged pull
    requests since a date (first page of 100), a pull request, an issue,
    and one page of the files of a pull request. *)

#[local] Unset Elimination Schemes.
Inductive Json : Type :=
| JNull
| JBool (b : bool)
| JNumber (n : number)
| JString (s : string)
| JArray (xs : list Json)
| JObject (fields : list (string * Json)).
#[local] Set Elimination Schemes.

(** The value of key [k] in the members of an object; of two members
    with the same key the later one counts. *)
Definition field (k : string) (fields : list (string * Json)) : option Json :=
  fold_left (fun acc kv => if String.eqb (fst kv) k then Some (snd kv) else acc)
            fields None.

(** [Boolean(v)], with [None] for [undefined]. *)
Definition truthy (v : option Json) : bool :=
  match v with
  | None | Some JNull => false
  | Some (JBool b) => b
  | Some (JNumber n) => num_truthy n
  | Some (JString s) => negb (String.eqb s EmptyString)
  | Some (JArray _) | Some (JObject _) => true
  end.

Inductive Failure : Type :=
| NotAnObject            (* a TypeError of the script itself *)
| FetchFailed (message : string).

Inductive Outcome (A : Type) : Type :=
| Done (a : A)
| Failed (f : Failure).
Arguments Done {A} a.
Arguments Failed {A} f.

Definition andThen {A B : Type} (c : Outcome A) (k : A -> Outcome B)
  : Outcome B :=
  match c with
  | Done a => k a
  | Failed f => Failed f
  end.

Notation "'let+' x ':=' c1 'in' c2" := (andThen c1 (fun x => c2))
  (at level 10, x name, c1 at level 100, c2 at level 200).

Fixpoint mapO {A B : Type} (f : A -> Outcome B) (xs : list A)
  : Outcome (list B) :=
  match xs with
  | [] => Done []
  | x :: xs' => let+ y := f x in let+ ys := mapO f xs' in Done (y :: ys)
  end.

(** [v.k] for a parsed value [v]: a TypeError on [null], the member of
    an object, and [undefined] on everything else (none of the keys the
    script reads is a property of a string, a number or an array). *)
Definition member (v : Json) (k : string) : Outcome (option Json) :=
  match v with
  | JNull => Failed NotAnObject
  | JObject fields => Done (field k fields)
  | _ => Done None
  end.

(** [v?.k] *)
Definition optMember (v : Json) (k : string) : option Json :=
  match v with
  | JObject fields => field k fields
  | _ => None
  end.

(** [xs.filter(Boolean)] on values that may be [undefined]. *)
Definition filterBoolean (vs : list (option Json)) : list Json :=
  flat_map (fun v => match v with
                     | Some j => if truthy v then [j] else []
                     | None => []
                     end) vs.

Inductive Request : Type :=
| SearchMerged (date : string)
| GetPull (number : Json)
| GetIssue (number : Json)
| ListPullFiles (number : Json) (per_page page : nat).

Definition perPage : nat := 100.
Definition maxPages : nat := 3.

(** The request for one page of the files of a pull request. *)
Definition filesUrl (number : Json) (page : nat) : Request :=
  ListPullFiles number perPage page.

Section GitHub.
Variable ghFetch : Request -> Outcome Json.

(** [searchMergedPRNumbersSinceDate] *)
Definition searchMergedPRNumbersSinceDate (dateYYYYMMDD : string)
  : Outcome (list Json) :=
  let+ data := ghFetch (SearchMerged dateYYYYMMDD) in
  let+ data_items := member data "items" in
  let items :=
    match data_items with
    | Some (JArray xs) => xs
    | _ => []
    end in
  let+ numbers := mapO (fun i => member i "number") items in
  Done (filterBoolean numbers).

(** [getPR] *)
Definition getPR (number : Json) : Outcome Json := ghFetch (GetPull number).

(** [getIssueLabels]: [.map] is a TypeError on a value that is not an
    array. *)
Definition getIssueLabels (number : Json) : Outcome (list Json) :=
  let+ issue := ghFetch (GetIssue number) in
  let+ issue_labels := member issue "labels" in
  match issue_labels with
  | None | Some JNull => Done []
  | Some (JArray ls) =>
      Done (filterBoolean (map (fun l => optMember l "name") ls))
  | Some _ => Failed NotAnObject
  end.

(** The file names one page adds to [files]. *)
Definition pushed (items : list Json) : list Json :=
  filterBoolean (map (fun it => optMember it "filename") items).

(** The loop of [getPRFiles] over the pages still to read, with the
    requests sent so far. *)
Fixpoint filesLoop (number : Json) (pages : list nat) (files : list Json)
  (sent : list Request) : list Request * Outcome (list Json) :=
  match pages with
  | [] => (sent, Done files)
  | page :: pages' =>
      let url := filesUrl number page in
      match ghFetch url with
      | Failed f => (sent ++ [url], Failed f)
      | Done (JArray items) =>
          if (length items =? 0)%nat then (sent ++ [url], Done files)
          else
            let files' := files ++ pushed items in
            if (length items <? perPage)%nat
            then (sent ++ [url], Done files')
            else filesLoop number pages' files' (sent ++ [url])
      | Done _ => (sent ++ [url], Done files)
      end
  end.

(** [getPRFiles]: the requests it sends and its outcome. *)
Definition getPRFiles (number : Json) : list Request * Outcome (list Json) :=
  filesLoop number (seq 1 maxPages) [] [].

(** A page of files that is an array of at least [perPage] entries. *)
Definition fullPage (number : Json) (page : nat) (items : list Json) : Prop :=
  ghFetch (filesUrl number page) = Done (JArray items)
  /\ (perPage <= length items)%nat.

End GitHub.

(** ** The digest document

    [buildMarkdown] on picked pull requests whose fields have the types
    GitHub gives them: a number, strings, lists of strings. The printing
    of a number in a template ([NumberToString]) is a parameter. The
    lines are built as a list, as in the code, and joined at the end. *)

Record Picked : Type := {
  pk_number : number;
  pk_title : option string;
  pk_url : string;
  pk_merged_at : string;
  pk_labels : list string;
  pk_files : list string;
  pk_score : number;
  pk_strongHit : string;
  pk_tags : list string;
  pk_hits : list Hit
}.

Definition backtick : string := String (ascii_of_nat 96) EmptyString.

(** The dash of the headings and the mark of a cut list, as the bytes
    of their UTF-8 encoding. *)
Definition emDash : string :=
  String (ascii_of_nat 226)
    (String (ascii_of_nat 128) (String (ascii_of_nat 148) EmptyString)).

Definition ellipsis : string :=
  String (ascii_of_nat 226)
    (String (ascii_of_nat 128) (String (ascii_of_nat 166) EmptyString)).

(** A string between two backticks. *)
Definition code (s : string) : string := backtick +:+ s +:+ backtick.

Definition headingMark : string := "### #".

Section Markdown.
Variable NumberToString : number -> string.

Definition headerLines (generatedAt sinceIso : string) : list string :=
  [ "# rails-security-pr-digest";
    EmptyString;
    "Generated at: **" +:+ generatedAt +:+ "**";
    "Window start: **" +:+ sinceIso +:+ "**";
    "Target: **rails/rails**";
    EmptyString;
    "## Latest security-related merged PRs";
    EmptyString ].

(** The line of one hit: exactly one of the four tests on [h.type]
    holds. *)
Definition hitLine (h : Hit) : string :=
  match type h with
  | Label =>
      "  - label: " +:+ code (mdEscape (Some (what h)))
      +:+ " (+" +:+ NumberToString (w h) +:+ ")"
  | Text =>
      "  - text: " +:+ code (mdEscape (Some (what h)))
      +:+ " (+" +:+ NumberToString (w h) +:+ ")"
  | Path =>
      "  - path: " +:+ code (mdEscape (Some (what h)))
      +:+ " on " +:+ code (mdEscape (file h))
      +:+ " (+" +:+ NumberToString (w h) +:+ ")"
  | Guide =>
      "  - guide: " +:+ code (mdEscape (Some (what h)))
      +:+ " (+" +:+ NumberToString (w h) +:+ ")"
  end.

(** The [if (it.files.length)] block. *)
Definition fileLines (files : list string) : list string :=
  if (length files =? 0)%nat then []
  else
    let shown := firstn 20 files in
    [ "- Files (" +:+ NumberToString (Num (Z.of_nat (length files))) +:+ "):" ]
    ++ map (fun f => "  - " +:+ code (mdEscape (Some f))) shown
    ++ (if (length shown <? length files)%nat
        then [ "  - " +:+ ellipsis ] else []).

(** The [top] hits block. *)
Definition hitLines (hits : list Hit) : list string :=
  let top := firstn 8 hits in
  if (length top =? 0)%nat then []
  else
    [ "- Why picked (top hits):" ]
    ++ map hitLine top
    ++ (if (length top <? length hits)%nat
        then [ "  - " +:+ ellipsis ] else []).

Definition tagStr (tags : list string) : string :=
  if (length tags =? 0)%nat then EmptyString
  else String.concat " " (map code tags).

(** The lines of one picked pull request. *)
Definition itemLines (it : Picked) : list string :=
  [ headingMark +:+ NumberToString (pk_number it) +:+ " " +:+ emDash
    +:+ " " +:+ mdEscape (pk_title it);
    "- URL: " +:+ pk_url it;
    "- Merged: " +:+ pk_merged_at it;
    "- Score: **" +:+ NumberToString (pk_score it) +:+ "**"
    +:+ (if String.eqb (tagStr (pk_tags it)) EmptyString then EmptyString
         else " (" +:+ tagStr (pk_tags it) +:+ ")") ]
  ++ (if String.eqb (pk_strongHit it) EmptyString then []
      else [ "- Strong signal: " +:+ code (pk_strongHit it) ])
  ++ (if (length (pk_labels it) =? 0)%nat then []
      else [ "- Labels: "
             +:+ String.concat " "
                   (map (fun l => code (mdEscape (Some l))) (pk_labels it)) ])
  ++ fileLines (pk_files it)
  ++ hitLines (pk_hits it)
  ++ [ EmptyString ].

Definition buildMarkdownLines (generatedAt sinceIso : string)
  (items : list Picked) : list string :=
  headerLines generatedAt sinceIso
  ++ (if (length items =? 0)%nat
      then [ "No matching PRs in this window."; EmptyString ]
      else flat_map itemLines items).

(** [buildMarkdown] *)
Definition buildMarkdown (generatedAt sinceIso : string)
  (items : list Picked) : string :=
  String.concat newline (buildMarkdownLines generatedAt sinceIso items).

(** A line that opens the section of a pull request. *)
Definition isHeading (line : string) : bool := String.prefix headingMark line.

End Markdown.

(** ** More sample data *)
Module MoreSamples.
Import Samples.

(** A guide mapping without any pattern. *)
Definition idle : GuideMapping :=
  {| tag := "idle"; scoreBonus := VNum (Num 9);
     keywords := None; paths := Some [] |}.

Definition idleRules : Rules := withGuideMapping [xss; idle; csrf] sampleRules.

(** Loaded rules whose threshold is the word [high]. *)
Definition highRules : Rules :=
  readRules (Some {| window := None;
                     decision := Some {| threshold := VStr "high" |};
                     strongSignals := None;
                     scoring := Some sampleScoring;
                     securityGuideMapping := None |}).

(** Loaded rules all of whose patterns compile. *)
Definition soundRules : Rules :=
  readRules (Some (digestRules ["security fix"; "CVE"])).

(** A pull request whose text matches no strong-signal pattern of
    [sampleRules] before the malformed one. *)
Definition quiet : Item :=
  {| title := Some "Refactor"; body := None; labels := []; files := [] |}.

(** The record of [pr] without its files under [sampleRules]. *)
Definition noFilesRecord : DecisionRecord :=
  {| adopt := true; score := Num 14; strongHit := "CVE"; tags := ["xss"];
     hits :=
       [ {| type := Label; what := "security"; file := None; w := Num 5 |};
         {| type := Text; what := "CVE"; file := None; w := Num 6 |};
         {| type := Text; what := "escaping"; file := None; w := Num 0 |};
         {| type := Guide; what := "xss"; file := None; w := Num 3 |} ] |}.

(** The record of [pr] under [highRules]: a score of 15, not adopted. *)
Definition highRecord : DecisionRecord :=
  {| adopt := false; score := Num 15; strongHit := EmptyString; tags := [];
     hits := firstn 6 sampleTrail |}.

Definition fileEntry (name : string) : Json :=
  JObject [("filename", JString name)].

Definition shortPage : list Json :=
  [ fileEntry "lib/b.rb"; JNull; JObject [("filename", JString EmptyString)] ].

(** Two pages of files, the second one short, and an issue with one
    named label. *)
Definition twoPages (r : Request) : Outcome Json :=
  match r with
  | ListPullFiles _ _ 1 => Done (JArray (repeat (fileEntry "lib/a.rb") 100))
  | ListPullFiles _ _ 2 => Done (JArray shortPage)
  | GetIssue _ =>
      Done (JObject [("labels",
                      JArray [ JObject [("name", JString "security")]; JNull;
                               JObject [("name", JString EmptyString)] ])])
  | _ => Failed (FetchFailed "GitHub API 500")
  end.

(** Every page of files is full. *)
Definition fullPages (r : Request) : Outcome Json :=
  match r with
  | ListPullFiles _ _ _ => Done (JArray (repeat (fileEntry "lib/a.rb") 100))
  | _ => Failed (FetchFailed "GitHub API 500")
  end.

(** The first page of files is full, every other request fails. *)
Definition secondFails (r : Request) : Outcome Json :=
  match r with
  | ListPullFiles _ _ 1 => Done (JArray (repeat (fileEntry "lib/a.rb") 100))
  | _ => Failed (FetchFailed "GitHub API 500")
  end.

End MoreSamples.


(** ** The scorer on binary64 numbers

    A second embedding of [compileWeightedRegexMap] and [scoreOne], line
    by line the one above, in which a number is a double as in the
    language: [+=] is the rounded addition, [>=] the comparison, both
    with their behaviour on [NaN], the infinities and the two zeros.
    The item, the exceptions, the strong-signal loop and the regular
    expressions of the host are shared with the first embedding. *)
Module Doubles.

(** [a + b] *)
Definition num_add (a b : float) : float := (a + b)%float.

(** [a >= b] *)
Definition num_ge (a b : float) : bool := (b <=? a)%float.

(** The truth value of a number in a condition: [0], [-0] and [NaN] are
    falsy. *)
Definition num_truthy (n : float) : bool :=
  negb (n =? 0)%float && negb (PrimFloat.is_nan n).

(** [a || b] on numbers. *)
Definition num_or (a b : float) : float :=
  if num_truthy a then a else b.

(** A scalar of the loaded rule document. *)
Inductive value : Type :=
| VUndefined
| VNull
| VBool (b : bool)
| VNum (n : float)
| VStr (s : string).

(** [v ?? d] *)
Definition coalesce (v d : value) : value :=
  match v with
  | VUndefined | VNull => d
  | _ => v
  end.

(** [Number(s)] on a string, taken from the host. *)
Class NumericHost : Type := {
  StringToNumber : string -> float
}.

Record Window : Type := {
  win_type : value;
  win_value : value
}.

Record Decision : Type := {
  threshold : value
}.

Record Scoring : Type := {
  labelWeights : option (gmap string value);
  textKeywordWeights : option (list (string * value));
  pathWeights : option (list (string * value))
}.

Record GuideMapping : Type := {
  tag : string;
  scoreBonus : value;
  keywords : option (list string);
  paths : option (list string)
}.

Record Rules : Type := {
  window : option Window;
  decision : option Decision;
  strongSignals : option StrongSignals;
  scoring : option Scoring;
  securityGuideMapping : option (list GuideMapping)
}.

Record Hit : Type := {
  type : HitType;
  what : string;
  file : option string;
  w : float
}.

Record DecisionRecord : Type := {
  adopt : bool;
  score : float;
  strongHit : string;
  tags : list string;
  hits : list Hit
}.

(** The two accumulators [score] and [hits] of [scoreOne]. *)
Record Tally : Type := {
  t_score : float;
  t_hits : list Hit
}.

(** [score += h.w; hits.push(h)] *)
Definition contribute (h : Hit) (t : Tally) : Tally :=
  {| t_score := num_add (t_score t) (w h); t_hits := t_hits t ++ [h] |}.

Section Engine.
Context `{H : Host} `{N : NumericHost}.

(** [Number(v)] *)
Definition Number (v : value) : float :=
  match v with
  | VUndefined => PrimFloat.nan
  | VNull => 0%float
  | VBool b => if b then 1%float else 0%float
  | VNum n => n
  | VStr s => StringToNumber s
  end.

Record WeightedRegex : Type := {
  re : RegExp;
  pattern : string;
  weight : float
}.

Definition compileWeightedRegexMap (obj : option (list (string * value)))
  : Completion (list WeightedRegex) :=
  mapC (fun e : string * value =>
          let* r := newRegExp (fst e) in
          Return {| re := r; pattern := fst e;
                    weight := num_or (Number (snd e)) 0%float |})
       (default [] obj).

Definition labelStep (lw : gmap string value) (t : Tally) (l : string)
  : Tally :=
  let w := Number (coalesce (default VUndefined (lw !! l)) (VNum 0%float)) in
  if num_truthy w
  then contribute {| type := Label; what := l; file := None; w := w |} t
  else t.

Definition textStep (text : string) (t : Tally) (r : WeightedRegex) : Tally :=
  if regexp_test (re r) text
  then contribute {| type := Text; what := pattern r; file := None;
                 w := weight r |} t
  else t.

Definition fileStep (r : WeightedRegex) (t : Tally) (f : string) : Tally :=
  if regexp_test (re r) f
  then contribute {| type := Path; what := pattern r; file := Some f;
                 w := weight r |} t
  else t.

Definition pathStep (files : list string) (t : Tally) (r : WeightedRegex)
  : Tally :=
  fold_left (fileStep r) files t.

Definition guideFires (text : string) (files : list string)
  (m : GuideMapping) : Completion bool :=
  let* kwRes := mapC newRegExp (default [] (keywords m)) in
  let* pRes := mapC newRegExp (default [] (paths m)) in
  let kwHit := existsb (fun r => regexp_test r text) kwRes in
  let pHit :=
    existsb (fun f => existsb (fun r => regexp_test r f) pRes) files in
  Return (kwHit || pHit).

Definition guideHit (m : GuideMapping) : Hit :=
  {| type := Guide; what := tag m; file := None;
     w := Number (coalesce (scoreBonus m) (VNum 0%float)) |}.

Definition guideStep (text : string) (files : list string)
  (s : list string * Tally) (m : GuideMapping)
  : Completion (list string * Tally) :=
  let bonus := Number (coalesce (scoreBonus m) (VNum 0%float)) in
  let* fired := guideFires text files m in
  if fired
  then
    let tags := fst s ++ [tag m] in
    if num_truthy bonus
    then Return (tags, contribute (guideHit m) (snd s))
    else Return (tags, snd s)
  else Return s.

Definition scoreOne (it : Item) (rules : Rules) : Completion DecisionRecord :=
  let text := combinedText it in
  let* ss := deref (strongSignals rules) in
  let* strongHit := strongLoop text (default [] (patterns ss)) in
  let* sc := deref (scoring rules) in
  let lw := default ∅ (labelWeights sc) in
  let t0 := {| t_score := 0%float; t_hits := [] |} in
  let t1 := fold_left (labelStep lw) (labels it) t0 in
  let* textRes := compileWeightedRegexMap (textKeywordWeights sc) in
  let t2 := fold_left (textStep text) textRes t1 in
  let* pathRes := compileWeightedRegexMap (pathWeights sc) in
  let t3 := fold_left (pathStep (files it)) pathRes t2 in
  let* s4 := foldC (guideStep text (files it))
                   (default [] (securityGuideMapping rules)) ([], t3) in
  let* d := deref (decision rules) in
  let threshold := Number (coalesce (threshold d) (VNum 8%float)) in
  let adopt :=
    negb (String.eqb strongHit EmptyString)
    || num_ge (t_score (snd s4)) threshold in
  Return {| adopt := adopt; score := t_score (snd s4);
            strongHit := strongHit; tags := fst s4;
            hits := t_hits (snd s4) |}.

End Engine.

(** *** Vocabulary of the properties *)

(** The sum of the [w] fields of a trail: each added to the running
    sum, from [0], in trail order. *)
Definition sum_weights (hs : list Hit) : float :=
  fold_left num_add (map w hs) 0%float.

(** The tally after the hits [hs] have been contributed one by one. *)
Definition extend (t : Tally) (hs : list Hit) : Tally :=
  {| t_score := fold_left num_add (map w hs) (t_score t);
     t_hits := t_hits t ++ hs |}.

Definition withTextKeywordWeights (es : list (string * value)) (rules : Rules)
  : Rules :=
  {| window := window rules; decision := decision rules;
     strongSignals := strongSignals rules;
     scoring :=
       (fun sc => {| labelWeights := labelWeights sc;
                     textKeywordWeights := Some es;
                     pathWeights := pathWeights sc |}) <$> scoring rules;
     securityGuideMapping := securityGuideMapping rules |}.

Definition withPathWeights (es : list (string * value)) (rules : Rules)
  : Rules :=
  {| window := window rules; decision := decision rules;
     strongSignals := strongSignals rules;
     scoring :=
       (fun sc => {| labelWeights := labelWeights sc;
                     textKeywordWeights := textKeywordWeights sc;
                     pathWeights := Some es |}) <$> scoring rules;
     securityGuideMapping := securityGuideMapping rules |}.

(** The integer a double stands for, when it stands for one. *)
Definition integerValue (x : float) : option Z :=
  match Prim2SF x with
  | S754_zero _ => Some 0
  | S754_finite s m e =>
      let n := if s then Z.neg m else Z.pos m in
      if 0 <=? e then Some (n * 2 ^ e)
      else if n mod 2 ^ (- e) =? 0 then Some (n / 2 ^ (- e)) else None
  | _ => None
  end.

(** The sum, in the integers, of the [w] fields of a trail of integer
    weights. *)
Fixpoint integerSum (hs : list Hit) : option Z :=
  match hs with
  | [] => Some 0
  | h :: hs' =>
      match integerValue (w h), integerSum hs' with
      | Some z, Some s => Some (z + s)
      | _, _ => None
      end
  end.

Section Vocabulary.
Context `{H : Host} `{N : NumericHost}.

(** The hits each loop body appends, as lists. *)
Definition labelHits (lw : gmap string value) (l : string) : list Hit :=
  let w := Number (coalesce (default VUndefined (lw !! l)) (VNum 0%float)) in
  if num_truthy w
  then [ {| type := Label; what := l; file := None; w := w |} ]
  else [].

Definition textHits (text : string) (r : WeightedRegex) : list Hit :=
  if regexp_test (re r) text
  then [ {| type := Text; what := pattern r; file := None; w := weight r |} ]
  else [].

Definition pathHit (r : WeightedRegex) (f : string) : Hit :=
  {| type := Path; what := pattern r; file := Some f; w := weight r |}.

Definition pathHits (files : list string) (r : WeightedRegex) : list Hit :=
  map (pathHit r) (filter (fun f => regexp_test (re r) f = true) files).

Definition bonusHits (m : GuideMapping) : list Hit :=
  if num_truthy (w (guideHit m)) then [ guideHit m ] else [].

(** One compiled entry of a weighted pattern map. *)
Definition compiled (e : string * value) (r : WeightedRegex) : Prop :=
  regexp_new (fst e) = Some (re r) /\ pattern r = fst e
  /\ weight r = num_or (Number (snd e)) 0%float.

(** The trail of an evaluation: labels, text, paths, guide, in that
    order. *)
Definition trail (it : Item) (lw : gmap string value)
  (textRes pathRes : list WeightedRegex) (fired : list GuideMapping)
  : list Hit :=
  flat_map (labelHits lw) (labels it)
  ++ flat_map (textHits (combinedText it)) textRes
  ++ flat_map (pathHits (files it)) pathRes
  ++ flat_map bonusHits fired.

End Vocabulary.

(** *** Sample data *)

(** The double nearest to an integer. *)
Definition ofInteger (z : Z) : float :=
  SF2Prim (binary_normalize prec emax z 0 false).

(** A string of decimal digits reads as the double nearest to that
    integer, the empty string as [0], and a word such as ["high"] as
    [NaN]; this instance is used on no other string. *)
#[export] Instance literalNumbers : NumericHost := {|
  StringToNumber s :=
    match Literal.digits 0 s with
    | Num z => ofInteger z
    | NaN => PrimFloat.nan
    end
|}.

Definition tenth : float := 0x1.999999999999ap-4%float.

Definition fifth : float := 0x1.999999999999ap-3%float.

(** A rule file with fractional weights, for the item [Samples.pr]. *)
Definition fractionScoring : Scoring :=
  {| labelWeights := Some {[ "security" := VNum 0.5%float;
                             "docs" := VNum 0%float ]};
     textKeywordWeights :=
       Some [("CVE", VNum fifth); ("escaping", VStr "high")];
     pathWeights := Some [("lib/", VNum tenth); ("test/", VNull)] |}.

Definition fractionRules : Rules :=
  {| window := None;
     decision := Some {| threshold := VUndefined |};
     strongSignals := Some {| patterns := Some ["CVE"] |};
     scoring := Some fractionScoring;
     securityGuideMapping :=
       Some [ {| tag := "xss"; scoreBonus := VNum 3%float;
                 keywords := Some ["escaping"]; paths := None |} ] |}.

Definition tenthHit : Hit :=
  {| type := Path; what := "lib/"; file := Some "lib/a.rb"; w := tenth |}.

Definition fifthHit : Hit :=
  {| type := Text; what := "CVE"; file := None; w := fifth |}.

Definition fractionTrail : list Hit :=
  [ {| type := Label; what := "security"; file := None; w := 0.5%float |};
    fifthHit;
    {| type := Text; what := "escaping"; file := None; w := 0%float |};
    tenthHit; tenthHit;
    {| type := Path; what := "test/"; file := Some "test/a_test.rb";
       w := 0%float |};
    {| type := Guide; what := "xss"; file := None; w := 3%float |} ].

Definition fractionRecord : DecisionRecord :=
  {| adopt := true; score := 0x1.f333333333333p+1%float; strongHit := "CVE";
     tags := ["xss"]; hits := fractionTrail |}.

(** A pull request labelled [big] and [one], and a rule file that
    weighs the first label [2^53] and the second [1]. *)
Definition labelled : Item :=
  {| title := Some "Bump"; body := None; labels := ["big"; "one"];
     files := [] |}.

Definition largeRules : Rules :=
  {| window := None;
     decision := Some {| threshold := VNum 8%float |};
     strongSignals := Some {| patterns := Some [] |};
     scoring :=
       Some {| labelWeights := Some {[ "big" := VNum 0x1p53%float;
                                       "one" := VNum 1%float ]};
               textKeywordWeights := Some []; pathWeights := Some [] |};
     securityGuideMapping := Some [] |}.

Definition largeTrail : list Hit :=
  [ {| type := Label; what := "big"; file := None; w := 0x1p53%float |};
    {| type := Label; what := "one"; file := None; w := 1%float |} ].

Definition largeRecord : DecisionRecord :=
  {| adopt := true; score := 0x1p53%float; strongHit := EmptyString;
     tags := []; hits := largeTrail |}.

End Doubles.
(** * Properties *)

(** ** Arithmetic of scores *)

Lemma num_add_0_r (a : number) : num_add a (Num 0) = a.
Proof. destruct a; simpl; [f_equal; lia | reflexivity]. Qed.

Lemma num_add_0_l (a : number) : num_add (Num 0) a = a.
Proof. destruct a; reflexivity. Qed.

Lemma num_add_comm (a b : number) : num_add a b = num_add b a.
Proof. destruct a, b; simpl; try reflexivity. f_equal; lia. Qed.

Lemma num_add_assoc (a b c : number) :
  num_add a (num_add b c) = num_add (num_add a b) c.
Proof. destruct a, b, c; simpl; try reflexivity. f_equal; lia. Qed.

Lemma fold_num_add (ns : list number) (s : number) :
  fold_left num_add ns s = num_add s (fold_left num_add ns (Num 0)).
Proof.
  revert s. induction ns as [|n ns IH]; intros s; cbn [fold_left].
  - symmetry. apply num_add_0_r.
  - rewrite IH, (IH (num_add (Num 0) n)), num_add_0_l.
    symmetry. apply num_add_assoc.
Qed.

Lemma sum_weights_app (a b : list Hit) :
  sum_weights (a ++ b) = num_add (sum_weights a) (sum_weights b).
Proof.
  unfold sum_weights. rewrite map_app, fold_left_app.
  apply fold_num_add.
Qed.

Lemma sum_weights_cons (h : Hit) (hs : list Hit) :
  sum_weights (h :: hs) = num_add (w h) (sum_weights hs).
Proof.
  change (h :: hs) with ([h] ++ hs). rewrite sum_weights_app.
  unfold sum_weights at 1. cbn [map fold_left]. now rewrite num_add_0_l.
Qed.

(** Leaving a block of hits out of a trail takes its sum off the total. *)
Lemma sum_weights_middle (a m b : list Hit) :
  sum_weights (a ++ m ++ b) = num_add (sum_weights (a ++ b)) (sum_weights m).
Proof.
  rewrite !sum_weights_app.
  rewrite (num_add_comm (sum_weights m)), num_add_assoc. reflexivity.
Qed.

Lemma sum_weights_const (hs : list Hit) (z : Z) :
  Forall (fun h => w h = Num z) hs ->
  sum_weights hs = Num (Z.of_nat (length hs) * z).
Proof.
  induction 1 as [|h hs Hh _ IH].
  - reflexivity.
  - rewrite sum_weights_cons, Hh, IH. simpl num_add. f_equal.
    rewrite length_cons. lia.
Qed.

(** ** Tallies *)

Lemma extend_nil (t : Tally) : extend t [] = t.
Proof. destruct t. unfold extend. simpl. now rewrite app_nil_r. Qed.

Lemma extend_app (t : Tally) (a b : list Hit) :
  extend (extend t a) b = extend t (a ++ b).
Proof.
  unfold extend. simpl. now rewrite map_app, fold_left_app, app_assoc.
Qed.

Lemma contribute_extend (h : Hit) (t : Tally) : contribute h t = extend t [h].
Proof. reflexivity. Qed.

(** A loop whose body contributes the hits [g x] contributes them all. *)
Lemma fold_left_extend {A : Type} (step : Tally -> A -> Tally)
  (g : A -> list Hit) :
  (forall t x, step t x = extend t (g x)) ->
  forall xs t, fold_left step xs t = extend t (flat_map g xs).
Proof.
  intros Hstep. induction xs as [|x xs IH]; intros t; simpl.
  - symmetry. apply extend_nil.
  - rewrite IH, Hstep. apply extend_app.
Qed.

(** ** Exceptions *)

Lemma bind_Return {A B : Type} (c : Completion A) (k : A -> Completion B)
  (b : B) :
  bind c k = Return b <-> exists a, c = Return a /\ k a = Return b.
Proof.
  split.
  - destruct c as [a|e]; simpl; [eauto | discriminate].
  - intros (a & -> & Hk). exact Hk.
Qed.

Lemma deref_Return {A : Type} (o : option A) (a : A) :
  deref o = Return a <-> o = Some a.
Proof. destruct o; simpl; split; congruence. Qed.

Ltac unbind H :=
  let x := fresh "x" in
  let Hx := fresh "Hx" in
  apply bind_Return in H; destruct H as (x & Hx & H).

Lemma mapC_app {A B : Type} (f : A -> Completion B) (xs ys : list A)
  (r : list B) :
  mapC f (xs ++ ys) = Return r <->
  exists rx ry, mapC f xs = Return rx /\ mapC f ys = Return ry /\ r = rx ++ ry.
Proof.
  revert r. induction xs as [|x xs IH]; intros r; simpl.
  - split.
    + intros Hy. exists [], r. auto.
    + intros (rx & ry & [= <-] & Hy & ->). exact Hy.
  - split.
    + intros Hr. unbind Hr. unbind Hr. injection Hr as <-.
      apply IH in Hx0 as (rx & ry & Hrx & Hry & ->).
      exists (x0 :: rx), ry. rewrite Hx, Hrx. simpl. auto.
    + intros (rx & ry & Hrx & Hry & ->).
      unbind Hrx. unbind Hrx. injection Hrx as <-.
      rewrite Hx. simpl.
      assert (Hxy : mapC f (xs ++ ys) = Return (x1 ++ ry))
        by (apply IH; eauto).
      rewrite Hxy. reflexivity.
Qed.

Lemma filterC_app {A : Type} (f : A -> Completion bool) (xs ys : list A)
  (r : list A) :
  filterC f (xs ++ ys) = Return r <->
  exists rx ry,
    filterC f xs = Return rx /\ filterC f ys = Return ry /\ r = rx ++ ry.
Proof.
  revert r. induction xs as [|x xs IH]; intros r; simpl.
  - split.
    + intros Hy. exists [], r. auto.
    + intros (rx & ry & [= <-] & Hy & ->). exact Hy.
  - split.
    + intros Hr. unbind Hr. unbind Hr. injection Hr as <-.
      apply IH in Hx0 as (rx & ry & Hrx & Hry & ->).
      exists (if x0 then x :: rx else rx), ry. rewrite Hx, Hrx. simpl.
      destruct x0; auto.
    + intros (rx & ry & Hrx & Hry & ->).
      unbind Hrx. unbind Hrx. injection Hrx as <-.
      rewrite Hx. simpl.
      assert (Hxy : filterC f (xs ++ ys) = Return (x1 ++ ry))
        by (apply IH; eauto).
      rewrite Hxy. simpl. destruct x0; reflexivity.
Qed.

Section EngineProperties.
Context `{H : Host}.

(** ** The loops of [scoreOne] in closed form *)

Lemma labelStep_extend lw t l : labelStep lw t l = extend t (labelHits lw l).
Proof.
  unfold labelStep, labelHits, labelWeight.
  destruct (num_truthy _); [reflexivity | symmetry; apply extend_nil].
Qed.

Lemma textStep_extend text t r : textStep text t r = extend t (textHits text r).
Proof.
  unfold textStep, textHits.
  destruct (regexp_test _ _); [reflexivity | symmetry; apply extend_nil].
Qed.

Lemma pathHits_flat_map files r :
  pathHits files r =
  flat_map (fun f => if regexp_test (re r) f then [pathHit r f] else []) files.
Proof.
  unfold pathHits. induction files as [|f fs IH]; [reflexivity|].
  rewrite filter_cons. cbn [flat_map].
  destruct (decide (regexp_test (re r) f = true)) as [Hm|Hm].
  - rewrite Hm. simpl. now rewrite IH.
  - apply not_true_is_false in Hm. rewrite Hm. simpl. exact IH.
Qed.

Lemma pathStep_extend files t r :
  pathStep files t r = extend t (pathHits files r).
Proof.
  unfold pathStep. rewrite pathHits_flat_map.
  apply fold_left_extend. intros t' f. unfold fileStep.
  destruct (regexp_test _ _); [reflexivity | symmetry; apply extend_nil].
Qed.

Lemma bonusHits_truthy m :
  num_truthy (Number (coalesce (scoreBonus m) (VNum (Num 0)))) = true ->
  bonusHits m = [guideHit m].
Proof. intros Hb. unfold bonusHits. cbn [guideHit w]. now rewrite Hb. Qed.

Lemma bonusHits_falsy m :
  num_truthy (Number (coalesce (scoreBonus m) (VNum (Num 0)))) = false ->
  bonusHits m = [].
Proof. intros Hb. unfold bonusHits. cbn [guideHit w]. now rewrite Hb. Qed.

Lemma guideLoop_closed text files ms tags t :
  foldC (guideStep text files) ms (tags, t) =
  let* fired := filterC (guideFires text files) ms in
  Return (tags ++ map tag fired, extend t (flat_map bonusHits fired)).
Proof.
  revert tags t. induction ms as [|m ms IH]; intros tags t.
  - simpl. now rewrite app_nil_r, extend_nil.
  - cbn [foldC filterC]. unfold guideStep at 1.
    destruct (guideFires text files m) as [[|]|e]; cbn [bind fst snd];
      [| |reflexivity].
    + destruct (num_truthy (Number _)) eqn:Hb; cbn [bind]; rewrite IH;
        destruct (filterC _ ms) as [fired|e]; cbn [bind]; try reflexivity;
        cbn [map flat_map].
      * rewrite (bonusHits_truthy m Hb), contribute_extend, extend_app,
          <- app_assoc.
        reflexivity.
      * rewrite (bonusHits_falsy m Hb), <- app_assoc. reflexivity.
    + rewrite IH. destruct (filterC _ ms); reflexivity.
Qed.

(** [scoreOne] returns exactly when its sections are present and its
    compilations succeed, and then the record is determined by the
    trail. *)
Lemma scoreOne_Return it rules d :
  scoreOne it rules = Return d <->
  exists ss sc dc textRes pathRes fired,
    strongSignals rules = Some ss /\ scoring rules = Some sc
    /\ decision rules = Some dc
    /\ strongLoop (combinedText it) (default [] (patterns ss))
       = Return (strongHit d)
    /\ compileWeightedRegexMap (textKeywordWeights sc) = Return textRes
    /\ compileWeightedRegexMap (pathWeights sc) = Return pathRes
    /\ filterC (guideFires (combinedText it) (files it))
               (default [] (securityGuideMapping rules)) = Return fired
    /\ hits d = trail it (default ∅ (labelWeights sc)) textRes pathRes fired
    /\ tags d = map tag fired
    /\ score d = sum_weights (hits d)
    /\ adopt d =
         negb (String.eqb (strongHit d) EmptyString)
         || num_ge (score d)
              (Number (coalesce (threshold dc) (VNum (Num 8)))).
Proof.
  unfold scoreOne. split.
  - intros Hd.
    unbind Hd. apply deref_Return in Hx.
    unbind Hd. unbind Hd. apply deref_Return in Hx1.
    unbind Hd. unbind Hd. unbind Hd.
    unbind Hd. apply deref_Return in Hx5. injection Hd as <-.
    rewrite (fold_left_extend _ _ (labelStep_extend _)) in Hx4.
    rewrite (fold_left_extend _ _ (textStep_extend _)) in Hx4.
    rewrite (fold_left_extend _ _ (pathStep_extend _)) in Hx4.
    rewrite !extend_app, guideLoop_closed in Hx4.
    unbind Hx4. injection Hx4 as <-.
    cbn [adopt score strongHit tags hits fst snd].
    exists x, x1, x5, x2, x3, x6.
    rewrite extend_app.
    repeat split; try assumption; try reflexivity.
    unfold trail. cbn [extend t_hits]. now rewrite <- !app_assoc.
  - intros (ss & sc & dc & textRes & pathRes & fired & Hss & Hsc & Hdc
            & Hstrong & Htext & Hpath & Hfired & Hhits & Htags & Hscore
            & Hadopt).
    rewrite Hss, Hsc, Hdc. cbn [deref bind].
    rewrite Hstrong, Htext, Hpath. cbn [bind].
    rewrite (fold_left_extend _ _ (labelStep_extend _)).
    rewrite (fold_left_extend _ _ (textStep_extend _)).
    rewrite (fold_left_extend _ _ (pathStep_extend _)).
    rewrite !extend_app, guideLoop_closed, Hfired. cbn [bind fst snd].
    f_equal. rewrite extend_app.
    destruct d as [a s sh tg hs]. cbn in *. subst.
    unfold trail. rewrite <- !app_assoc. reflexivity.
Qed.

(** ** The strong-signal loop *)

Lemma strongLoop_skip text pre rest sh :
  (forall q, In q pre -> matches q text = false) ->
  strongLoop text (pre ++ rest) = Return sh ->
  strongLoop text rest = Return sh.
Proof.
  induction pre as [|q pre IH]; intros Hpre Hloop; [exact Hloop|].
  cbn [app strongLoop] in Hloop. unbind Hloop.
  assert (Hq : matches q text = false) by (apply Hpre; now left).
  unfold newRegExp in Hx. unfold matches in Hq.
  destruct (regexp_new q) as [r|]; [|discriminate].
  injection Hx as <-. rewrite Hq in Hloop.
  apply IH; [|exact Hloop]. intros q' Hq'. apply Hpre. now right.
Qed.

Lemma strongLoop_skip_back text pre rest rest' sh :
  (forall q, In q pre -> matches q text = false) ->
  strongLoop text (pre ++ rest) = Return sh ->
  strongLoop text (pre ++ rest') = strongLoop text rest'.
Proof.
  induction pre as [|q pre IH]; intros Hpre Hloop; [reflexivity|].
  cbn [app strongLoop] in Hloop |- *. unbind Hloop. rewrite Hx. cbn [bind].
  assert (Hq : matches q text = false) by (apply Hpre; now left).
  unfold newRegExp in Hx. unfold matches in Hq.
  destruct (regexp_new q) as [r|]; [|discriminate].
  injection Hx as <-. rewrite Hq in Hloop |- *.
  apply IH; [|exact Hloop]. intros q' Hq'. apply Hpre. now right.
Qed.

Lemma strongLoop_hit text p post :
  matches p text = true -> strongLoop text (p :: post) = Return p.
Proof.
  unfold matches. cbn [strongLoop]. unfold newRegExp.
  destruct (regexp_new p) as [r|]; [|discriminate].
  intros Hp. cbn [bind]. now rewrite Hp.
Qed.

(** The loop returns the first pattern that matches, whatever follows
    it. *)
Lemma strongLoop_first text pre p post sh :
  (forall q, In q pre -> matches q text = false) ->
  matches p text = true ->
  strongLoop text (pre ++ p :: post) = Return sh ->
  sh = p /\ forall post', strongLoop text (pre ++ p :: post') = Return p.
Proof.
  intros Hpre Hp Hloop. split.
  - apply strongLoop_skip in Hloop; [|exact Hpre].
    rewrite (strongLoop_hit _ _ _ Hp) in Hloop. congruence.
  - intros post'.
    rewrite (strongLoop_skip_back _ _ _ (p :: post') _ Hpre Hloop).
    now apply strongLoop_hit.
Qed.

(** Replacing the strong-signal patterns by a list on which the loop
    gives the same result leaves the record unchanged. *)
Lemma scoreOne_withPatterns it rules d ps :
  scoreOne it rules = Return d ->
  strongLoop (combinedText it) ps = Return (strongHit d) ->
  scoreOne it (withPatterns ps rules) = Return d.
Proof.
  intros Hd Hps. apply scoreOne_Return in Hd
    as (ss & sc & dc & textRes & pathRes & fired & Hss & Hsc & Hdc
        & Hstrong & Hrest).
  apply scoreOne_Return.
  exists {| patterns := Some ps |}, sc, dc, textRes, pathRes, fired.
  cbn [withPatterns strongSignals scoring decision securityGuideMapping
       patterns default].
  auto.
Qed.

(** ** Rebuilding a record from its ingredients *)

Lemma scoreOne_assemble it rules ss sc dc sh textRes pathRes fired :
  strongSignals rules = Some ss -> scoring rules = Some sc ->
  decision rules = Some dc ->
  strongLoop (combinedText it) (default [] (patterns ss)) = Return sh ->
  compileWeightedRegexMap (textKeywordWeights sc) = Return textRes ->
  compileWeightedRegexMap (pathWeights sc) = Return pathRes ->
  filterC (guideFires (combinedText it) (files it))
          (default [] (securityGuideMapping rules)) = Return fired ->
  scoreOne it rules =
  Return (assemble sh (Number (coalesce (threshold dc) (VNum (Num 8))))
            (map tag fired)
            (trail it (default ∅ (labelWeights sc)) textRes pathRes fired)).
Proof.
  intros Hss Hsc Hdc Hsh Htext Hpath Hfired. apply scoreOne_Return.
  exists ss, sc, dc, textRes, pathRes, fired.
  cbn [assemble adopt score strongHit tags hits]. auto 12.
Qed.

Lemma scoreOne_assembled it rules d dc :
  scoreOne it rules = Return d ->
  decision rules = Some dc ->
  d = assemble (strongHit d)
        (Number (coalesce (threshold dc) (VNum (Num 8)))) (tags d) (hits d).
Proof.
  intros Hd Hdc'. apply scoreOne_Return in Hd
    as (ss & sc & dc' & textRes & pathRes & fired & Hss & Hsc & Hdc
        & Hstrong & Htext & Hpath & Hfired & Hhits & Htags & Hscore
        & Hadopt).
  assert (dc' = dc) as -> by congruence.
  destruct d as [a s sh tg hs]. cbn in *. unfold assemble. subst.
  reflexivity.
Qed.

Lemma compile_entry pre e post rs :
  compileWeightedRegexMap (Some (pre ++ e :: post)) = Return rs ->
  exists rpre r rpost,
    compileWeightedRegexMap (Some pre) = Return rpre
    /\ compiled e r
    /\ compileWeightedRegexMap (Some post) = Return rpost
    /\ compileWeightedRegexMap (Some (pre ++ post)) = Return (rpre ++ rpost)
    /\ rs = rpre ++ r :: rpost.
Proof.
  unfold compileWeightedRegexMap. cbn [default]. intros Hrs.
  apply mapC_app in Hrs as (rpre & rrest & Hpre & Hrest & ->).
  cbn [mapC] in Hrest. unbind Hrest. unbind Hrest. injection Hrest as <-.
  unbind Hx. injection Hx as <-.
  unfold newRegExp in Hx1.
  destruct (regexp_new (fst e)) as [r|] eqn:He; [|discriminate].
  injection Hx1 as <-.
  exists rpre, {| re := r; pattern := fst e;
                  weight := num_or (Number (snd e)) (Num 0) |}, x0.
  split; [exact Hpre|]. split; [repeat split; exact He|].
  split; [exact Hx0|]. split; [apply mapC_app; eauto | reflexivity].
Qed.

Lemma flat_map_middle {A B : Type} (g : A -> list B) pre x post :
  flat_map g (pre ++ x :: post) = flat_map g pre ++ g x ++ flat_map g post.
Proof. now rewrite flat_map_app. Qed.

(** The effect of one entry of [textKeywordWeights] on the record. *)
Lemma text_entry_effect it rules d sc pre e post :
  scoreOne it rules = Return d ->
  scoring rules = Some sc ->
  textKeywordWeights sc = Some (pre ++ e :: post) ->
  exists r d' h1 h2,
    compiled e r
    /\ scoreOne it (withTextKeywordWeights (pre ++ post) rules) = Return d'
    /\ hits d = h1 ++ textHits (combinedText it) r ++ h2
    /\ hits d' = h1 ++ h2
    /\ score d =
         num_add (score d') (sum_weights (textHits (combinedText it) r)).
Proof.
  intros Hd Hsc Hes. apply scoreOne_Return in Hd
    as (ss & sc' & dc & textRes & pathRes & fired & Hss & Hsc' & Hdc
        & Hstrong & Htext & Hpath & Hfired & Hhits & Htags & Hscore
        & Hadopt).
  assert (sc' = sc) as -> by congruence.
  rewrite Hes in Htext.
  apply compile_entry in Htext
    as (rpre & r & rpost & Hrpre & Hr & Hrpost & Hboth & ->).
  set (lw := default ∅ (labelWeights sc)) in *.
  exists r. eexists.
  exists (flat_map (labelHits lw) (labels it)
          ++ flat_map (textHits (combinedText it)) rpre),
         (flat_map (textHits (combinedText it)) rpost
          ++ flat_map (pathHits (files it)) pathRes
          ++ flat_map bonusHits fired).
  split; [exact Hr|]. split.
  - eapply (scoreOne_assemble _ _ ss
              {| labelWeights := labelWeights sc;
                 textKeywordWeights := Some (pre ++ post);
                 pathWeights := pathWeights sc |} dc);
      cbn [withTextKeywordWeights strongSignals scoring decision
           securityGuideMapping textKeywordWeights pathWeights labelWeights];
      try eassumption.
    now rewrite Hsc.
  - cbn [assemble hits score labelWeights]. fold lw.
    assert (Hd : hits d =
              (flat_map (labelHits lw) (labels it)
               ++ flat_map (textHits (combinedText it)) rpre)
              ++ textHits (combinedText it) r
              ++ flat_map (textHits (combinedText it)) rpost
              ++ flat_map (pathHits (files it)) pathRes
              ++ flat_map bonusHits fired).
    { rewrite Hhits. unfold trail. rewrite flat_map_middle.
      now rewrite <- !app_assoc. }
    split; [exact Hd|]. split.
    + unfold trail. rewrite flat_map_app. now rewrite <- !app_assoc.
    + rewrite Hscore, Hd, sum_weights_middle. f_equal. f_equal.
      unfold trail. rewrite flat_map_app. now rewrite <- !app_assoc.
Qed.

(** The effect of one entry of [pathWeights] on the record. *)
Lemma path_entry_effect it rules d sc pre e post :
  scoreOne it rules = Return d ->
  scoring rules = Some sc ->
  pathWeights sc = Some (pre ++ e :: post) ->
  exists r d' h1 h2,
    compiled e r
    /\ scoreOne it (withPathWeights (pre ++ post) rules) = Return d'
    /\ hits d = h1 ++ pathHits (files it) r ++ h2
    /\ hits d' = h1 ++ h2
    /\ score d = num_add (score d') (sum_weights (pathHits (files it) r)).
Proof.
  intros Hd Hsc Hes. apply scoreOne_Return in Hd
    as (ss & sc' & dc & textRes & pathRes & fired & Hss & Hsc' & Hdc
        & Hstrong & Htext & Hpath & Hfired & Hhits & Htags & Hscore
        & Hadopt).
  assert (sc' = sc) as -> by congruence.
  rewrite Hes in Hpath.
  apply compile_entry in Hpath
    as (rpre & r & rpost & Hrpre & Hr & Hrpost & Hboth & ->).
  set (lw := default ∅ (labelWeights sc)) in *.
  exists r. eexists.
  exists (flat_map (labelHits lw) (labels it)
          ++ flat_map (textHits (combinedText it)) textRes
          ++ flat_map (pathHits (files it)) rpre),
         (flat_map (pathHits (files it)) rpost
          ++ flat_map bonusHits fired).
  split; [exact Hr|]. split.
  - eapply (scoreOne_assemble _ _ ss
              {| labelWeights := labelWeights sc;
                 textKeywordWeights := textKeywordWeights sc;
                 pathWeights := Some (pre ++ post) |} dc);
      cbn [withPathWeights strongSignals scoring decision
           securityGuideMapping textKeywordWeights pathWeights labelWeights];
      try eassumption.
    now rewrite Hsc.
  - cbn [assemble hits score labelWeights]. fold lw.
    assert (Hd : hits d =
              (flat_map (labelHits lw) (labels it)
               ++ flat_map (textHits (combinedText it)) textRes
               ++ flat_map (pathHits (files it)) rpre)
              ++ pathHits (files it) r
              ++ flat_map (pathHits (files it)) rpost
              ++ flat_map bonusHits fired).
    { rewrite Hhits. unfold trail. rewrite flat_map_middle.
      now rewrite <- !app_assoc. }
    split; [exact Hd|]. split.
    + unfold trail. rewrite flat_map_app. now rewrite <- !app_assoc.
    + rewrite Hscore, Hd, sum_weights_middle. f_equal. f_equal.
      unfold trail. rewrite flat_map_app. now rewrite <- !app_assoc.
Qed.

(** The effect of one label of the item on the record. *)
Lemma label_effect it rules d sc pre l post :
  scoreOne it rules = Return d ->
  scoring rules = Some sc ->
  labels it = pre ++ l :: post ->
  exists d' h1 h2,
    scoreOne (withLabels (pre ++ post) it) rules = Return d'
    /\ hits d = h1 ++ labelHits (default ∅ (labelWeights sc)) l ++ h2
    /\ hits d' = h1 ++ h2
    /\ score d =
         num_add (score d')
           (sum_weights (labelHits (default ∅ (labelWeights sc)) l))
    /\ strongHit d' = strongHit d /\ tags d' = tags d.
Proof.
  intros Hd Hsc Hls. apply scoreOne_Return in Hd
    as (ss & sc' & dc & textRes & pathRes & fired & Hss & Hsc' & Hdc
        & Hstrong & Htext & Hpath & Hfired & Hhits & Htags & Hscore
        & Hadopt).
  assert (sc' = sc) as -> by congruence.
  set (lw := default ∅ (labelWeights sc)) in *.
  eexists.
  exists (flat_map (labelHits lw) pre),
         (flat_map (labelHits lw) post
          ++ flat_map (textHits (combinedText it)) textRes
          ++ flat_map (pathHits (files it)) pathRes
          ++ flat_map bonusHits fired).
  split.
  - eapply (scoreOne_assemble (withLabels (pre ++ post) it) _ ss sc dc);
      eassumption.
  - cbn [assemble hits score strongHit tags]. fold lw.
    assert (Hd : hits d =
              flat_map (labelHits lw) pre ++ labelHits lw l
              ++ flat_map (labelHits lw) post
              ++ flat_map (textHits (combinedText it)) textRes
              ++ flat_map (pathHits (files it)) pathRes
              ++ flat_map bonusHits fired).
    { rewrite Hhits. unfold trail. rewrite Hls, flat_map_middle.
      now rewrite <- !app_assoc. }
    assert (Hd' : trail (withLabels (pre ++ post) it) lw textRes pathRes
                    fired =
              flat_map (labelHits lw) pre
              ++ flat_map (labelHits lw) post
              ++ flat_map (textHits (combinedText it)) textRes
              ++ flat_map (pathHits (files it)) pathRes
              ++ flat_map bonusHits fired).
    { unfold trail. cbn [withLabels labels files]. rewrite flat_map_app.
      now rewrite <- !app_assoc. }
    split; [exact Hd|]. split; [exact Hd'|]. split; [|auto].
    rewrite Hscore, Hd, Hd', sum_weights_middle. reflexivity.
Qed.

(** The effect of one guide mapping on the record. *)
Lemma guide_effect it rules d pre m post :
  scoreOne it rules = Return d ->
  securityGuideMapping rules = Some (pre ++ m :: post) ->
  exists fired d' h1 h2 t1 t2,
    guideFires (combinedText it) (files it) m = Return fired
    /\ scoreOne it (withGuideMapping (pre ++ post) rules) = Return d'
    /\ hits d = h1 ++ (if fired then bonusHits m else []) ++ h2
    /\ hits d' = h1 ++ h2
    /\ tags d = t1 ++ (if fired then [tag m] else []) ++ t2
    /\ tags d' = t1 ++ t2
    /\ score d =
         num_add (score d')
           (sum_weights (if fired then bonusHits m else [])).
Proof.
  intros Hd Hms. apply scoreOne_Return in Hd
    as (ss & sc & dc & textRes & pathRes & fired & Hss & Hsc & Hdc
        & Hstrong & Htext & Hpath & Hfired & Hhits & Htags & Hscore
        & Hadopt).
  rewrite Hms in Hfired. cbn [default] in Hfired.
  apply filterC_app in Hfired as (fpre & frest & Hfpre & Hfrest & ->).
  cbn [filterC] in Hfrest. unbind Hfrest. unbind Hfrest.
  injection Hfrest as <-.
  set (lw := default ∅ (labelWeights sc)) in *.
  assert (Hcut : filterC (guideFires (combinedText it) (files it))
                   (pre ++ post) = Return (fpre ++ x0))
    by (apply filterC_app; eauto).
  exists x. eexists.
  exists (flat_map (labelHits lw) (labels it)
          ++ flat_map (textHits (combinedText it)) textRes
          ++ flat_map (pathHits (files it)) pathRes
          ++ flat_map bonusHits fpre),
         (flat_map bonusHits x0), (map tag fpre), (map tag x0).
  split; [exact Hx|]. split.
  - eapply (scoreOne_assemble _ _ ss sc dc); try eassumption.
  - cbn [assemble hits score tags]. fold lw.
    assert (Hd : hits d =
              (flat_map (labelHits lw) (labels it)
               ++ flat_map (textHits (combinedText it)) textRes
               ++ flat_map (pathHits (files it)) pathRes
               ++ flat_map bonusHits fpre)
              ++ (if x then bonusHits m else [])
              ++ flat_map bonusHits x0).
    { rewrite Hhits. unfold trail. rewrite flat_map_app.
      destruct x; cbn [flat_map app]; now rewrite <- !app_assoc. }
    assert (Hd' : trail it lw textRes pathRes (fpre ++ x0) =
              (flat_map (labelHits lw) (labels it)
               ++ flat_map (textHits (combinedText it)) textRes
               ++ flat_map (pathHits (files it)) pathRes
               ++ flat_map bonusHits fpre)
              ++ flat_map bonusHits x0).
    { unfold trail. rewrite flat_map_app. now rewrite <- !app_assoc. }
    split; [exact Hd|]. split; [exact Hd'|].
    split; [|split].
    + rewrite Htags, map_app. destruct x; reflexivity.
    + apply map_app.
    + rewrite Hscore, Hd, Hd', sum_weights_middle. reflexivity.
Qed.

(** ** Where each hit of the trail comes from *)

Lemma in_labelHits lw ls h :
  In h (flat_map (labelHits lw) ls) <->
  In (what h) ls
  /\ h = {| type := Label; what := what h; file := None;
            w := labelWeight lw (what h) |}
  /\ num_truthy (labelWeight lw (what h)) = true.
Proof.
  rewrite in_flat_map. unfold labelHits. split.
  - intros (l & Hl & Hh).
    destruct (num_truthy (labelWeight lw l)) eqn:Hw; [|destruct Hh].
    destruct Hh as [<-|[]]. cbn [what]. auto.
  - intros (Hl & Hh & Hw). exists (what h). split; [exact Hl|].
    rewrite Hw. left. now symmetry.
Qed.

Lemma in_textHits text rs h :
  In h (flat_map (textHits text) rs) -> type h = Text.
Proof.
  rewrite in_flat_map. unfold textHits. intros (r & _ & Hh).
  destruct (regexp_test _ _); [|destruct Hh].
  now destruct Hh as [<-|[]].
Qed.

Lemma in_pathHits files rs h :
  In h (flat_map (pathHits files) rs) -> type h = Path.
Proof.
  rewrite in_flat_map. unfold pathHits. intros (r & _ & Hh).
  apply in_map_iff in Hh as (f & <- & _). reflexivity.
Qed.

Lemma in_bonusHits ms h :
  In h (flat_map bonusHits ms) -> type h = Guide /\ num_truthy (w h) = true.
Proof.
  rewrite in_flat_map. unfold bonusHits. intros (m & _ & Hh).
  destruct (num_truthy (w (guideHit m))) eqn:Hw; [|destruct Hh].
  destruct Hh as [<-|[]]. auto.
Qed.

(** A hit of type [Label] names a label of the item whose looked-up
    weight is neither [0] nor [NaN]; a hit of type [Guide] carries such
    a bonus. *)
Lemma hit_origin it rules d sc h :
  scoreOne it rules = Return d ->
  scoring rules = Some sc ->
  In h (hits d) ->
  match type h with
  | Label =>
      In (what h) (labels it)
      /\ w h = labelWeight (default ∅ (labelWeights sc)) (what h)
      /\ num_truthy (w h) = true
  | Guide => num_truthy (w h) = true
  | _ => True
  end.
Proof.
  intros Hd Hsc Hh. apply scoreOne_Return in Hd
    as (ss & sc' & dc & textRes & pathRes & fired & Hss & Hsc' & Hdc
        & Hstrong & Htext & Hpath & Hfired & Hhits & Htags & Hscore
        & Hadopt).
  assert (sc' = sc) as -> by congruence.
  rewrite Hhits in Hh. unfold trail in Hh.
  rewrite !in_app_iff in Hh. destruct Hh as [Hh|[Hh|[Hh|Hh]]].
  - apply in_labelHits in Hh as (Hl & Hh & Hw).
    rewrite Hh. cbn [type what w]. auto.
  - apply in_textHits in Hh. now rewrite Hh.
  - apply in_pathHits in Hh. now rewrite Hh.
  - apply in_bonusHits in Hh as (Hty & Hw). now rewrite Hty.
Qed.


(** ** Malformed patterns *)

Lemma rejected_incl ps ps' e :
  (forall q, In q ps -> In q ps') -> rejected ps e -> rejected ps' e.
Proof. intros Hincl (q & He & Hq & Hm). exists q. auto. Qed.

Lemma newRegExp_Throw p e : newRegExp p = Throw e -> rejected [p] e.
Proof.
  unfold newRegExp. destruct (regexp_new p) eqn:Hp; [discriminate|].
  intros [= <-]. exists p. unfold malformed. rewrite Hp.
  repeat split. now left.
Qed.

Lemma newRegExp_Return p r : newRegExp p = Return r -> malformed p = false.
Proof.
  unfold newRegExp, malformed. now destruct (regexp_new p).
Qed.

Lemma mapC_newRegExp_Throw ps e :
  mapC newRegExp ps = Throw e -> rejected ps e.
Proof.
  induction ps as [|p ps IH]; cbn [mapC]; [discriminate|].
  destruct (newRegExp p) eqn:Hp; cbn [bind].
  - destruct (mapC newRegExp ps); cbn [bind]; [discriminate|].
    intros [= <-]. eapply rejected_incl; [|now apply IH].
    intros q Hq. now right.
  - intros [= <-]. eapply rejected_incl; [|exact (newRegExp_Throw _ _ Hp)].
    intros q [<-|[]]. now left.
Qed.

Lemma mapC_newRegExp_Return ps rs :
  mapC newRegExp ps = Return rs -> forall p, In p ps -> malformed p = false.
Proof.
  revert rs. induction ps as [|p ps IH]; intros rs Hrs q Hq; [destruct Hq|].
  cbn [mapC] in Hrs. unbind Hrs. unbind Hrs.
  destruct Hq as [<-|Hq]; [exact (newRegExp_Return _ _ Hx) | eauto].
Qed.

Lemma compile_Throw obj e :
  compileWeightedRegexMap obj = Throw e ->
  rejected (map fst (default [] obj)) e.
Proof.
  unfold compileWeightedRegexMap.
  induction (default [] obj) as [|x xs IH]; cbn [mapC map]; [discriminate|].
  destruct (newRegExp (fst x)) eqn:Hp; cbn [bind].
  - destruct (mapC _ xs); cbn [bind]; [discriminate|].
    intros [= <-]. eapply rejected_incl; [|now apply IH].
    intros q Hq. now right.
  - intros [= <-]. eapply rejected_incl; [|exact (newRegExp_Throw _ _ Hp)].
    intros q [<-|[]]. now left.
Qed.

Lemma compile_Return obj rs :
  compileWeightedRegexMap obj = Return rs ->
  forall p, In p (map fst (default [] obj)) -> malformed p = false.
Proof.
  unfold compileWeightedRegexMap. revert rs.
  induction (default [] obj) as [|x xs IH]; intros rs Hrs q Hq;
    [destruct Hq|].
  cbn [mapC] in Hrs. unbind Hrs. unbind Hrs. unbind Hx.
  destruct Hq as [<-|Hq]; [exact (newRegExp_Return _ _ Hx1) | eauto].
Qed.

Lemma strongLoop_Throw text ps e :
  strongLoop text ps = Throw e -> rejected ps e.
Proof.
  induction ps as [|p ps IH]; cbn [strongLoop]; [discriminate|].
  destruct (newRegExp p) as [r|e'] eqn:Hp; cbn [bind].
  - destruct (regexp_test r text); [discriminate|].
    intros He. eapply rejected_incl; [|now apply IH].
    intros q Hq. now right.
  - intros [= <-]. eapply rejected_incl; [|exact (newRegExp_Throw _ _ Hp)].
    intros q [<-|[]]. now left.
Qed.

(** A rejected pattern that the loop reaches makes it throw. *)
Lemma strongLoop_reaches text pre p post :
  (forall q, In q pre -> matches q text = false) ->
  malformed p = true ->
  exists e, strongLoop text (pre ++ p :: post) = Throw e.
Proof.
  intros Hpre Hp.
  destruct (strongLoop text (pre ++ p :: post)) as [sh|e] eqn:Hloop;
    [|eauto].
  apply strongLoop_skip in Hloop; [|exact Hpre].
  cbn [strongLoop] in Hloop. unfold newRegExp, malformed in *.
  destruct (regexp_new p); discriminate.
Qed.

Lemma guideFires_Throw text files m e :
  guideFires text files m = Throw e -> rejected (guidePatterns m) e.
Proof.
  unfold guideFires, guidePatterns.
  destruct (mapC newRegExp (default [] (keywords m))) eqn:Hk; cbn [bind].
  - destruct (mapC newRegExp (default [] (paths m))) eqn:Hp; cbn [bind];
      [discriminate|].
    intros [= <-]. eapply rejected_incl; [|exact (mapC_newRegExp_Throw _ _ Hp)].
    intros q Hq. apply in_or_app. now right.
  - intros [= <-]. eapply rejected_incl; [|exact (mapC_newRegExp_Throw _ _ Hk)].
    intros q Hq. apply in_or_app. now left.
Qed.

Lemma guideFires_Return text files m b :
  guideFires text files m = Return b ->
  forall p, In p (guidePatterns m) -> malformed p = false.
Proof.
  unfold guideFires, guidePatterns. intros Hb p Hp.
  unbind Hb. unbind Hb. apply in_app_or in Hp as [Hp|Hp].
  - exact (mapC_newRegExp_Return _ _ Hx p Hp).
  - exact (mapC_newRegExp_Return _ _ Hx0 p Hp).
Qed.

Lemma filterC_guideFires_Throw text files ms e :
  filterC (guideFires text files) ms = Throw e ->
  rejected (flat_map guidePatterns ms) e.
Proof.
  induction ms as [|m ms IH]; cbn [filterC flat_map]; [discriminate|].
  destruct (guideFires text files m) eqn:Hm; cbn [bind].
  - destruct (filterC _ ms); cbn [bind]; [discriminate|].
    intros [= <-]. eapply rejected_incl; [|now apply IH].
    intros q Hq. apply in_or_app. now right.
  - intros [= <-]. eapply rejected_incl; [|exact (guideFires_Throw _ _ _ _ Hm)].
    intros q Hq. apply in_or_app. now left.
Qed.

Lemma filterC_guideFires_Return text files ms fired :
  filterC (guideFires text files) ms = Return fired ->
  forall p, In p (flat_map guidePatterns ms) -> malformed p = false.
Proof.
  revert fired. induction ms as [|m ms IH]; intros fired Hf p Hp;
    [destruct Hp|].
  cbn [filterC] in Hf. unbind Hf. unbind Hf.
  cbn [flat_map] in Hp. apply in_app_or in Hp as [Hp|Hp].
  - exact (guideFires_Return _ _ _ _ Hx p Hp).
  - eauto.
Qed.

Lemma scoreOne_Return_wellformed it rules d :
  scoreOne it rules = Return d ->
  forall p, In p (scoringPatterns rules) -> malformed p = false.
Proof.
  intros Hd p Hp. apply scoreOne_Return in Hd
    as (ss & sc & dc & textRes & pathRes & fired & Hss & Hsc & Hdc
        & Hstrong & Htext & Hpath & Hfired & _).
  unfold scoringPatterns in Hp. rewrite Hsc in Hp. cbn [mbind option_bind] in Hp.
  apply in_app_or in Hp as [Hp|Hp]; [exact (compile_Return _ _ Htext p Hp)|].
  apply in_app_or in Hp as [Hp|Hp]; [exact (compile_Return _ _ Hpath p Hp)|].
  exact (filterC_guideFires_Return _ _ _ _ Hfired p Hp).
Qed.

Lemma scoreOne_Throw it rules e :
  scoreOne it rules = Throw e ->
  (e = TypeError
   /\ (strongSignals rules = None \/ scoring rules = None
       \/ decision rules = None))
  \/ rejected (configuredPatterns rules) e.
Proof.
  unfold scoreOne, configuredPatterns.
  destruct (strongSignals rules) as [ss|]; cbn [deref bind mbind option_bind];
    [|intros [= <-]; left; auto].
  destruct (strongLoop _ _) as [sh|e1] eqn:Hstrong; cbn [bind].
  2:{ intros [= <-]. right.
      eapply rejected_incl; [|exact (strongLoop_Throw _ _ _ Hstrong)].
      intros q Hq. apply in_or_app. now left. }
  destruct (scoring rules) as [sc|]; cbn [deref bind mbind option_bind];
    [|intros [= <-]; left; auto].
  destruct (compileWeightedRegexMap (textKeywordWeights sc)) as [textRes|e1]
    eqn:Htext; cbn [bind].
  2:{ intros [= <-]. right.
      eapply rejected_incl; [|exact (compile_Throw _ _ Htext)].
      intros q Hq. apply in_or_app. right. apply in_or_app. now left. }
  destruct (compileWeightedRegexMap (pathWeights sc)) as [pathRes|e1]
    eqn:Hpath; cbn [bind].
  2:{ intros [= <-]. right.
      eapply rejected_incl; [|exact (compile_Throw _ _ Hpath)].
      intros q Hq. apply in_or_app. right. apply in_or_app. right.
      apply in_or_app. now left. }
  rewrite guideLoop_closed.
  destruct (filterC _ _) as [fired|e1] eqn:Hfired; cbn [bind].
  2:{ intros [= <-]. right.
      eapply rejected_incl; [|exact (filterC_guideFires_Throw _ _ _ _ Hfired)].
      intros q Hq. apply in_or_app. right. apply in_or_app. right.
      apply in_or_app. now right. }
  destruct (decision rules); cbn [deref bind]; [discriminate|].
  intros [= <-]. left; auto.
Qed.

(** After [readRules] every section is present, so an evaluation can
    only fail on a rejected pattern. *)
Lemma scoreOne_readRules_Throw it loaded e :
  scoreOne it (readRules loaded) = Throw e ->
  rejected (configuredPatterns (readRules loaded)) e.
Proof.
  intros He.
  destruct (scoreOne_Throw _ _ _ He) as [(_ & [Hs|[Hs|Hs]])|Hr];
    [discriminate Hs..|exact Hr].
Qed.

(** [scoreOne] returns when every section is present and every
    configured pattern compiles. *)
Lemma scoreOne_total it loaded :
  (forall p, In p (configuredPatterns (readRules loaded)) ->
             malformed p = false) ->
  exists d, scoreOne it (readRules loaded) = Return d.
Proof.
  intros Hok. destruct (scoreOne it (readRules loaded)) as [d|e] eqn:Hd;
    [eauto|].
  apply scoreOne_readRules_Throw in Hd as (q & _ & Hq & Hm).
  rewrite (Hok q Hq) in Hm. discriminate.
Qed.

Lemma main_first_Throw loaded it items e :
  scoreOne it (readRules loaded) = Throw e ->
  main loaded (it :: items) = Throw e.
Proof.
  intros He. unfold main. cbn [foldC]. unfold pickStep at 1.
  now rewrite He.
Qed.

(** ** Entries that weigh nothing *)


Lemma num_or_zero n : num_truthy n = false -> num_or n (Num 0) = Num 0.
Proof. unfold num_or. now intros ->. Qed.

Lemma num_or_Num n : exists z, num_or n (Num 0) = Num z.
Proof.
  unfold num_or. destruct n as [z|]; cbn; [|eauto].
  destruct (negb (z =? 0)); eauto.
Qed.

Lemma labelWeight_absent (lw : gmap string value) l :
  lw !! l = None -> labelWeight lw l = Num 0.
Proof. unfold labelWeight. now intros ->. Qed.


(** Two records of the same rules with the same strong-signal result,
    tags and trail are the same record. *)
Lemma same_record it it' rules d d' :
  scoreOne it rules = Return d -> scoreOne it' rules = Return d' ->
  strongHit d' = strongHit d -> tags d' = tags d -> hits d' = hits d ->
  d' = d.
Proof.
  intros Hd Hd' Hsh Htg Hhs.
  destruct (proj1 (scoreOne_Return _ _ _) Hd)
    as (_ & _ & dc & _ & _ & _ & _ & _ & Hdc & _).
  rewrite (scoreOne_assembled _ _ _ _ Hd Hdc),
          (scoreOne_assembled _ _ _ _ Hd' Hdc).
  now rewrite Hsh, Htg, Hhs.
Qed.

(** A label whose looked-up weight is [0] or [NaN] can be taken off
    the item without changing the record. *)
Lemma falsy_label_effect it rules d sc pre l post :
  scoreOne it rules = Return d ->
  scoring rules = Some sc ->
  labels it = pre ++ l :: post ->
  num_truthy (labelWeight (default ∅ (labelWeights sc)) l) = false ->
  scoreOne (withLabels (pre ++ post) it) rules = Return d.
Proof.
  intros Hd Hsc Hls Hw.
  destruct (label_effect _ _ _ _ _ _ _ Hd Hsc Hls)
    as (d' & h1 & h2 & Hd' & Hh & Hh' & _ & Hsh & Htg).
  rewrite Hd'. f_equal. apply (same_record _ _ _ _ _ Hd Hd' Hsh Htg).
  rewrite Hh, Hh'. unfold labelHits. now rewrite Hw.
Qed.

(** An entry of [textKeywordWeights] whose weight reads as [0] or
    [NaN] and whose pattern matches: one hit of weight [0], the score
    of the rules without the entry. *)
Lemma falsy_text_entry_effect it rules d sc pre p v post :
  scoreOne it rules = Return d ->
  scoring rules = Some sc ->
  textKeywordWeights sc = Some (pre ++ (p, v) :: post) ->
  num_truthy (Number v) = false ->
  matches p (combinedText it) = true ->
  exists d' h1 h2,
    scoreOne it (withTextKeywordWeights (pre ++ post) rules) = Return d'
    /\ hits d = h1 ++ {| type := Text; what := p; file := None;
                         w := Num 0 |} :: h2
    /\ hits d' = h1 ++ h2
    /\ score d = score d'.
Proof.
  intros Hd Hsc Hes Hv Hm.
  destruct (text_entry_effect _ _ _ _ _ _ _ Hd Hsc Hes)
    as (r & d' & h1 & h2 & (Hre & Hpat & Hwt) & Hd' & Hh & Hh' & Hs).
  cbn [fst snd] in *. rewrite (num_or_zero _ Hv) in Hwt.
  unfold matches in Hm. rewrite Hre in Hm.
  unfold textHits in *. rewrite Hm, Hpat, Hwt in *.
  exists d', h1, h2. repeat split; try assumption.
  rewrite Hs. apply num_add_0_r.
Qed.

Lemma filter_matches p r (files : list string) :
  regexp_new p = Some r ->
  filter (fun f => matches p f = true) files =
  filter (fun f => regexp_test r f = true) files.
Proof.
  intros Hp. apply list_filter_iff. intros f. unfold matches.
  now rewrite Hp.
Qed.

(** The same for an entry of [pathWeights]: one hit of weight [0] for
    each occurrence of a matching file. *)
Lemma falsy_path_entry_effect it rules d sc pre p v post :
  scoreOne it rules = Return d ->
  scoring rules = Some sc ->
  pathWeights sc = Some (pre ++ (p, v) :: post) ->
  num_truthy (Number v) = false ->
  exists d' h1 h2,
    scoreOne it (withPathWeights (pre ++ post) rules) = Return d'
    /\ hits d =
         h1 ++ map (fun f => {| type := Path; what := p; file := Some f;
                                w := Num 0 |})
                   (filter (fun f => matches p f = true) (files it))
            ++ h2
    /\ hits d' = h1 ++ h2
    /\ score d = score d'.
Proof.
  intros Hd Hsc Hes Hv.
  destruct (path_entry_effect _ _ _ _ _ _ _ Hd Hsc Hes)
    as (r & d' & h1 & h2 & (Hre & Hpat & Hwt) & Hd' & Hh & Hh' & Hs).
  cbn [fst snd] in *. rewrite (num_or_zero _ Hv) in Hwt.
  rewrite (filter_matches _ _ _ Hre).
  assert (Hph : pathHits (files it) r =
                map (fun f => {| type := Path; what := p; file := Some f;
                                 w := Num 0 |})
                    (filter (fun f => regexp_test (re r) f = true) (files it))).
  { unfold pathHits. apply map_ext. intros f. unfold pathHit.
    now rewrite Hpat, Hwt. }
  exists d', h1, h2. rewrite <- Hph. repeat split; try assumption.
  rewrite Hs, Hph, (sum_weights_const _ 0).
  - rewrite Z.mul_0_r. apply num_add_0_r.
  - apply List.Forall_forall. intros h Hin.
    apply in_map_iff in Hin as (f & <- & _). reflexivity.
Qed.

(** A guide mapping whose bonus reads as [0] or [NaN] leaves the trail
    and the score as they are without it. *)
Lemma falsy_bonus_effect it rules d pre m post :
  scoreOne it rules = Return d ->
  securityGuideMapping rules = Some (pre ++ m :: post) ->
  num_truthy (Number (coalesce (scoreBonus m) (VNum (Num 0)))) = false ->
  exists d',
    scoreOne it (withGuideMapping (pre ++ post) rules) = Return d'
    /\ hits d' = hits d /\ score d' = score d.
Proof.
  intros Hd Hms Hb.
  destruct (guide_effect _ _ _ _ _ _ Hd Hms)
    as (fired & d' & h1 & h2 & t1 & t2 & _ & Hd' & Hh & Hh' & _ & _ & Hs).
  rewrite (bonusHits_falsy _ Hb) in Hh, Hs.
  exists d'. split; [exact Hd'|].
  destruct fired; cbn [app] in Hh; rewrite Hh, Hh', Hs;
    split; try reflexivity; symmetry; apply num_add_0_r.
Qed.

(** ** The claims on the engine *)

(** C1, as amended. The record has [adopt] true exactly when the
    recorded strong-signal result is not the empty string or the score
    reaches the threshold. When the first pattern to match is a
    non-empty string the item is adopted whatever the score, and with no
    strong-signal pattern and a score below the threshold it is not. *)
Theorem adopt_by_strong_hit_or_threshold it rules d ss dc :
  scoreOne it rules = Return d ->
  strongSignals rules = Some ss ->
  decision rules = Some dc ->
  let thr := Number (coalesce (threshold dc) (VNum (Num 8))) in
  adopt d = negb (String.eqb (strongHit d) EmptyString) || num_ge (score d) thr
  /\ (forall pre p post,
        default [] (patterns ss) = pre ++ p :: post ->
        (forall q, In q pre -> matches q (combinedText it) = false) ->
        matches p (combinedText it) = true ->
        p <> EmptyString ->
        strongHit d = p /\ adopt d = true)
  /\ (default [] (patterns ss) = [] ->
      num_ge (score d) thr = false -> adopt d = false).
Proof.
  intros Hd Hss Hdc thr. apply scoreOne_Return in Hd
    as (ss' & sc & dc' & textRes & pathRes & fired & Hss' & _ & Hdc'
        & Hstrong & _ & _ & _ & _ & _ & _ & Hadopt).
  assert (ss' = ss) as -> by congruence.
  assert (dc' = dc) as -> by congruence.
  fold thr in Hadopt. split; [exact Hadopt|]. split.
  - intros pre p post Hps Hpre Hp Hne. rewrite Hps in Hstrong.
    destruct (strongLoop_first _ _ _ _ _ Hpre Hp Hstrong) as [Hsh _].
    split; [exact Hsh|]. rewrite Hadopt, Hsh.
    apply String.eqb_neq in Hne. now rewrite Hne.
  - intros Hps Hlow. rewrite Hps in Hstrong. injection Hstrong as Hsh.
    now rewrite Hadopt, <- Hsh, Hlow.
Qed.

(** C6. The strong-signal result is the first pattern, in declared
    order, whose regular expression matches the combined text, and the
    patterns behind it are not looked at: whatever stands there, the
    record is the same. *)
Theorem strong_signal_first_match_wins it rules d ss pre p post :
  scoreOne it rules = Return d ->
  strongSignals rules = Some ss ->
  patterns ss = Some (pre ++ p :: post) ->
  (forall q, In q pre -> matches q (combinedText it) = false) ->
  matches p (combinedText it) = true ->
  strongHit d = p
  /\ forall post',
       scoreOne it (withPatterns (pre ++ p :: post') rules) = Return d.
Proof.
  intros Hd Hss Hps Hpre Hp.
  pose proof Hd as Hd0. apply scoreOne_Return in Hd0
    as (ss' & sc & dc & textRes & pathRes & fired & Hss' & _ & _
        & Hstrong & _).
  assert (ss' = ss) as -> by congruence.
  rewrite Hps in Hstrong. cbn [default] in Hstrong.
  destruct (strongLoop_first _ _ _ _ _ Hpre Hp Hstrong) as [Hsh Hany].
  split; [exact Hsh|]. intros post'.
  apply scoreOne_withPatterns; [exact Hd|]. rewrite Hsh. apply Hany.
Qed.

(** C9, as amended. When the empty pattern is the first strong-signal
    pattern to match, the strong-signal result is the empty string, the
    record is the one the same rules give without any strong-signal
    pattern, and [adopt] is true exactly when the score reaches the
    threshold. *)
Theorem empty_pattern_first_reads_as_no_match it rules d ss dc pre post :
  scoreOne it rules = Return d ->
  strongSignals rules = Some ss ->
  decision rules = Some dc ->
  patterns ss = Some (pre ++ EmptyString :: post) ->
  (forall q, In q pre -> matches q (combinedText it) = false) ->
  matches EmptyString (combinedText it) = true ->
  strongHit d = EmptyString
  /\ scoreOne it (withPatterns [] rules) = Return d
  /\ adopt d =
       num_ge (score d) (Number (coalesce (threshold dc) (VNum (Num 8)))).
Proof.
  intros Hd Hss Hdc Hps Hpre Hp.
  pose proof Hd as Hd0. apply scoreOne_Return in Hd0
    as (ss' & sc & dc' & textRes & pathRes & fired & Hss' & _ & Hdc'
        & Hstrong & _ & _ & _ & _ & _ & _ & Hadopt).
  assert (ss' = ss) as -> by congruence.
  assert (dc' = dc) as -> by congruence.
  rewrite Hps in Hstrong. cbn [default] in Hstrong.
  destruct (strongLoop_first _ _ _ _ _ Hpre Hp Hstrong) as [Hsh _].
  split; [exact Hsh|]. split.
  - apply scoreOne_withPatterns; [exact Hd|]. now rewrite Hsh.
  - now rewrite Hadopt, Hsh.
Qed.

(** C3, as amended. Patterns are compiled while an item is evaluated.
    When a text-keyword, path or guide-mapping pattern is rejected, or a
    strong-signal pattern is rejected and no pattern before it matches
    the item's combined text, the evaluation of the item throws the
    syntax error of a rejected configured pattern, and a run whose first
    item it is ends with that error and picks nothing. *)
Theorem malformed_pattern_aborts_first_item loaded it items :
  (exists p, In p (scoringPatterns (readRules loaded))
             /\ malformed p = true)
  \/ (exists ss pre p post,
        strongSignals (readRules loaded) = Some ss
        /\ patterns ss = Some (pre ++ p :: post)
        /\ malformed p = true
        /\ forall q, In q pre -> matches q (combinedText it) = false) ->
  exists q,
    In q (configuredPatterns (readRules loaded))
    /\ malformed q = true
    /\ scoreOne it (readRules loaded) = Throw (SyntaxError q)
    /\ main loaded (it :: items) = Throw (SyntaxError q).
Proof.
  intros Hbad.
  assert (Hthrow : exists e, scoreOne it (readRules loaded) = Throw e).
  { destruct (scoreOne it (readRules loaded)) as [d|e] eqn:Hd; [|eauto].
    exfalso. destruct Hbad as [(p & Hp & Hm)|(ss & pre & p & post & Hss
                                             & Hps & Hm & Hpre)].
    - rewrite (scoreOne_Return_wellformed _ _ _ Hd p Hp) in Hm.
      discriminate.
    - apply scoreOne_Return in Hd
        as (ss' & sc & dc & textRes & pathRes & fired & Hss' & _ & _
            & Hstrong & _).
      assert (ss' = ss) as -> by congruence.
      rewrite Hps in Hstrong.
      change (strongLoop (combinedText it) (pre ++ p :: post)
              = Return (strongHit d)) in Hstrong.
      destruct (strongLoop_reaches (combinedText it) pre p post Hpre Hm)
        as (e & He).
      congruence. }
  destruct Hthrow as (e & He).
  destruct (scoreOne_readRules_Throw _ _ _ He) as (q & -> & Hq & Hm).
  exists q. repeat split; try assumption.
  now apply main_first_Throw.
Qed.


(** C10. A matching entry of [textKeywordWeights] or [pathWeights]
    whose weight reads as [0] or as no number still puts its hits on the
    trail, with weight [0], and the score is the one of the rules
    without the entry. A label or a guide mapping with such a weight or
    bonus leaves neither a hit nor a change of score, and no [Label] or
    [Guide] hit has a zero weight. *)
Theorem zero_weight_pattern_is_still_recorded it rules d sc :
  scoreOne it rules = Return d ->
  scoring rules = Some sc ->
  (forall pre p v post,
     textKeywordWeights sc = Some (pre ++ (p, v) :: post) ->
     num_truthy (Number v) = false ->
     matches p (combinedText it) = true ->
     exists d' h1 h2,
       scoreOne it (withTextKeywordWeights (pre ++ post) rules) = Return d'
       /\ hits d = h1 ++ {| type := Text; what := p; file := None;
                            w := Num 0 |} :: h2
       /\ hits d' = h1 ++ h2
       /\ score d = score d')
  /\ (forall pre p v post,
        pathWeights sc = Some (pre ++ (p, v) :: post) ->
        num_truthy (Number v) = false ->
        exists d' h1 h2,
          scoreOne it (withPathWeights (pre ++ post) rules) = Return d'
          /\ hits d =
               h1 ++ map (fun f => {| type := Path; what := p;
                                      file := Some f; w := Num 0 |})
                         (filter (fun f => matches p f = true) (files it))
                  ++ h2
          /\ hits d' = h1 ++ h2
          /\ score d = score d')
  /\ (forall pre l post,
        labels it = pre ++ l :: post ->
        num_truthy (labelWeight (default ∅ (labelWeights sc)) l) = false ->
        scoreOne (withLabels (pre ++ post) it) rules = Return d)
  /\ (forall pre m post,
        securityGuideMapping rules = Some (pre ++ m :: post) ->
        num_truthy (Number (coalesce (scoreBonus m) (VNum (Num 0))))
        = false ->
        exists d',
          scoreOne it (withGuideMapping (pre ++ post) rules) = Return d'
          /\ hits d' = hits d /\ score d' = score d)
  /\ (forall h,
        In h (hits d) -> type h = Label \/ type h = Guide ->
        num_truthy (w h) = true).
Proof.
  intros Hd Hsc. split; [|split; [|split; [|split]]].
  - intros pre p v post. apply (falsy_text_entry_effect _ _ _ _ _ _ _ _ Hd Hsc).
  - intros pre p v post. apply (falsy_path_entry_effect _ _ _ _ _ _ _ _ Hd Hsc).
  - intros pre l post. apply (falsy_label_effect _ _ _ _ _ _ _ Hd Hsc).
  - intros pre m post. apply (falsy_bonus_effect _ _ _ _ _ _ Hd).
  - intros h Hh Hty.
    pose proof (hit_origin _ _ _ _ _ Hd Hsc Hh) as Ho.
    destruct Hty as [Hty|Hty]; rewrite Hty in Ho; tauto.
Qed.

Lemma labelHits_empty ls : flat_map (labelHits ∅) ls = [].
Proof.
  induction ls as [|l ls IH]; [reflexivity|].
  cbn [flat_map]. rewrite IH. unfold labelHits.
  now rewrite (labelWeight_absent ∅ l (lookup_empty l)).
Qed.

(** Without any section nothing is recorded and nothing adopted. *)
Lemma scoreOne_no_rules it :
  scoreOne it (readRules None)
  = Return {| adopt := false; score := Num 0; strongHit := EmptyString;
              tags := []; hits := [] |}.
Proof.
  rewrite (scoreOne_assemble it (readRules None)
             {| patterns := Some [] |}
             {| labelWeights := Some ∅; textKeywordWeights := Some [];
                pathWeights := Some [] |}
             {| threshold := VNum (Num 8) |} EmptyString [] [] []);
    try reflexivity.
  unfold trail. cbn [labelWeights default from_option id flat_map].
  rewrite labelHits_empty. reflexivity.
Qed.

(** C8. A document loads as the same document with every missing
    section written out with the defaults: a window of 24 hours, a
    threshold of 8, empty weight maps and pattern sequences. Every
    evaluation under it is also the one under the document in which the
    missing sections are present and empty, with the same look-back; a
    document without any section adopts nothing. *)
Theorem missing_sections_default loaded it :
  let doc := default emptyRules loaded in
  readRules loaded = fillMissing explicitDefaults doc
  /\ readRules loaded = readRules (Some (fillMissing explicitDefaults doc))
  /\ scoreOne it (readRules loaded)
     = scoreOne it (readRules (Some (fillMissing bareSections doc)))
  /\ windowHours (readRules loaded)
     = windowHours (readRules (Some (fillMissing bareSections doc)))
  /\ windowHours (readRules None) = Num 24
  /\ scoreOne it (readRules None)
     = Return {| adopt := false; score := Num 0; strongHit := EmptyString;
                 tags := []; hits := [] |}.
Proof.
  intros doc.
  assert (Hl : readRules loaded = readRules (Some doc))
    by (destruct loaded; reflexivity).
  rewrite Hl. clearbody doc. clear Hl loaded.
  repeat split; try apply scoreOne_no_rules;
    destruct doc as [[wi|] [de|] [ss|] [sc|] [gm|]]; reflexivity.
Qed.

End EngineProperties.

(** ** The claims on the sample data *)

Module OnSamples.
Import Samples.

(** The empty pattern matches the combined text of [pr], and [pr] is
    not adopted. *)
Lemma empty_strong_pattern_match_is_not_adopted :
  strongSignals emptyOnlyRules = Some {| patterns := Some [EmptyString] |}
  /\ matches EmptyString (combinedText pr) = true
  /\ scoreOne pr emptyOnlyRules = Return (bareRecord false EmptyString)
  /\ adopt (bareRecord false EmptyString) = false.
Proof. repeat split; vm_compute; reflexivity. Qed.

Lemma adopt_by_strong_hit_or_threshold_witness :
  strongHit (sampleRecord "CVE") = "CVE"
  /\ adopt (sampleRecord "CVE") = true.
Proof.
  destruct (adopt_by_strong_hit_or_threshold pr sampleRules
              (sampleRecord "CVE") sampleSignals defaultDecision)
    as (_ & Hfirst & _); try (vm_compute; reflexivity).
  apply (Hfirst ["security fix"] "CVE" ["("]).
  - reflexivity.
  - intros q [<-|[]]. vm_compute. reflexivity.
  - vm_compute. reflexivity.
  - discriminate.
Defined.

Lemma strong_signal_first_match_wins_witness :
  strongHit (sampleRecord "CVE") = "CVE"
  /\ forall post',
       scoreOne pr (withPatterns (["security fix"] ++ "CVE" :: post')
                                 sampleRules)
       = Return (sampleRecord "CVE").
Proof.
  apply (strong_signal_first_match_wins pr sampleRules (sampleRecord "CVE")
           sampleSignals ["security fix"] "CVE" ["("]).
  - vm_compute. reflexivity.
  - reflexivity.
  - reflexivity.
  - intros q [<-|[]]. vm_compute. reflexivity.
  - vm_compute. reflexivity.
Defined.

(** The empty pattern is configured, yet the strong-signal result is
    ["CVE"] and [pr] is adopted on a score of [0]. *)
Lemma empty_pattern_behind_a_match_is_not_recorded :
  strongSignals emptyBehindRules
  = Some {| patterns := Some ["CVE"; EmptyString] |}
  /\ decision emptyBehindRules = Some defaultDecision
  /\ matches EmptyString (combinedText pr) = true
  /\ scoreOne pr emptyBehindRules = Return (bareRecord true "CVE")
  /\ strongHit (bareRecord true "CVE") <> EmptyString
  /\ adopt (bareRecord true "CVE") = true
  /\ num_ge (score (bareRecord true "CVE")) (Num 8) = false.
Proof.
  repeat split; try discriminate; vm_compute; reflexivity.
Qed.

Lemma empty_pattern_first_reads_as_no_match_witness :
  strongHit (bareRecord false EmptyString) = EmptyString
  /\ scoreOne pr (withPatterns [] emptyFirstRules)
     = Return (bareRecord false EmptyString)
  /\ adopt (bareRecord false EmptyString)
     = num_ge (score (bareRecord false EmptyString)) (Num 8).
Proof.
  apply (empty_pattern_first_reads_as_no_match pr emptyFirstRules
           (bareRecord false EmptyString)
           {| patterns := Some ["security fix"; EmptyString; "CVE"] |}
           defaultDecision
           ["security fix"] ["CVE"]).
  - vm_compute. reflexivity.
  - reflexivity.
  - reflexivity.
  - reflexivity.
  - intros q [<-|[]]. vm_compute. reflexivity.
  - vm_compute. reflexivity.
Defined.

(** A rejected pattern is configured, and the runs complete: one
    without items, one that scores and adopts [pr]. *)
Lemma runs_complete_with_a_malformed_pattern :
  (In "(" (configuredPatterns (readRules (Some brokenRules)))
   /\ malformed "(" = true
   /\ main (Some brokenRules) [] = Return [])
  /\ (In "(" (configuredPatterns sampleRules)
      /\ main (Some (digestRules ["security fix"; "CVE"; "("])) [pr]
         = Return [(pr, sampleRecord "CVE")]).
Proof.
  repeat split; try (vm_compute; reflexivity).
  - now left.
  - right. right. now left.
Qed.

Lemma malformed_pattern_aborts_first_item_witness :
  exists q,
    In q (configuredPatterns (readRules (Some brokenRules)))
    /\ malformed q = true
    /\ scoreOne pr (readRules (Some brokenRules)) = Throw (SyntaxError q)
    /\ main (Some brokenRules) [pr; pr] = Throw (SyntaxError q).
Proof.
  apply (malformed_pattern_aborts_first_item (Some brokenRules) pr [pr]).
  left. exists "(". split; [now left | vm_compute; reflexivity].
Defined.


Lemma zero_weight_pattern_is_still_recorded_witness :
  (exists d' h1 h2,
     scoreOne pr (withTextKeywordWeights ([("CVE", VNum (Num 6))] ++ [])
                                         sampleRules) = Return d'
     /\ hits (sampleRecord "CVE")
        = h1 ++ {| type := Text; what := "escaping"; file := None;
                   w := Num 0 |} :: h2
     /\ hits d' = h1 ++ h2
     /\ score (sampleRecord "CVE") = score d')
  /\ (exists d',
        scoreOne pr (withGuideMapping ([xss] ++ []) sampleRules) = Return d'
        /\ hits d' = hits (sampleRecord "CVE")
        /\ score d' = score (sampleRecord "CVE")).
Proof.
  destruct (zero_weight_pattern_is_still_recorded pr sampleRules
              (sampleRecord "CVE") sampleScoring)
    as (Htext & _ & _ & Hguide & _); try (vm_compute; reflexivity).
  split.
  - apply (Htext [("CVE", VNum (Num 6))] "escaping" (VStr "high") []);
      vm_compute; reflexivity.
  - apply (Hguide [xss] csrf []); vm_compute; reflexivity.
Defined.

End OnSamples.

(** * Properties of the scorer on binary64 numbers *)

Section DoublesProperties.
Import Doubles.
Context `{H : Host} `{N : NumericHost}.

(** ** Tallies *)

Lemma double_extend_nil (t : Tally) : extend t [] = t.
Proof. destruct t. unfold extend. simpl. now rewrite app_nil_r. Qed.

Lemma double_extend_app (t : Tally) (a b : list Hit) :
  extend (extend t a) b = extend t (a ++ b).
Proof.
  unfold extend. simpl. now rewrite map_app, fold_left_app, app_assoc.
Qed.

Lemma double_fold_left_extend {A : Type} (step : Tally -> A -> Tally)
  (g : A -> list Hit) :
  (forall t x, step t x = extend t (g x)) ->
  forall xs t, fold_left step xs t = extend t (flat_map g xs).
Proof.
  intros Hstep. induction xs as [|x xs IH]; intros t; simpl.
  - symmetry. apply double_extend_nil.
  - rewrite IH, Hstep. apply double_extend_app.
Qed.

(** The running sum over a trail in two parts. *)
Lemma double_sum_weights_app (a b : list Hit) :
  sum_weights (a ++ b) = fold_left num_add (map w b) (sum_weights a).
Proof. unfold sum_weights. now rewrite map_app, fold_left_app. Qed.

(** ** The loops of [scoreOne] in closed form *)

Lemma double_labelStep_extend lw t l :
  labelStep lw t l = extend t (labelHits lw l).
Proof.
  unfold labelStep, labelHits.
  destruct (num_truthy _); [reflexivity | symmetry; apply double_extend_nil].
Qed.

Lemma double_textStep_extend text t r :
  textStep text t r = extend t (textHits text r).
Proof.
  unfold textStep, textHits.
  destruct (regexp_test _ _);
    [reflexivity | symmetry; apply double_extend_nil].
Qed.

Lemma double_pathHits_flat_map files r :
  pathHits files r =
  flat_map (fun f => if regexp_test (re r) f then [pathHit r f] else []) files.
Proof.
  unfold pathHits. induction files as [|f fs IH]; [reflexivity|].
  rewrite filter_cons. cbn [flat_map].
  destruct (decide (regexp_test (re r) f = true)) as [Hm|Hm].
  - rewrite Hm. simpl. now rewrite IH.
  - apply not_true_is_false in Hm. rewrite Hm. simpl. exact IH.
Qed.

Lemma double_pathStep_extend files t r :
  pathStep files t r = extend t (pathHits files r).
Proof.
  unfold pathStep. rewrite double_pathHits_flat_map.
  apply double_fold_left_extend. intros t' f. unfold fileStep.
  destruct (regexp_test _ _);
    [reflexivity | symmetry; apply double_extend_nil].
Qed.

Lemma double_bonusHits_truthy m :
  num_truthy (Number (coalesce (scoreBonus m) (VNum 0%float))) = true ->
  bonusHits m = [guideHit m].
Proof. intros Hb. unfold bonusHits. cbn [guideHit w]. now rewrite Hb. Qed.

Lemma double_bonusHits_falsy m :
  num_truthy (Number (coalesce (scoreBonus m) (VNum 0%float))) = false ->
  bonusHits m = [].
Proof. intros Hb. unfold bonusHits. cbn [guideHit w]. now rewrite Hb. Qed.

Lemma double_guideLoop_closed text files ms tags t :
  foldC (guideStep text files) ms (tags, t) =
  let* fired := filterC (guideFires text files) ms in
  Return (tags ++ map tag fired, extend t (flat_map bonusHits fired)).
Proof.
  revert tags t. induction ms as [|m ms IH]; intros tags t.
  - simpl. now rewrite app_nil_r, double_extend_nil.
  - cbn [foldC filterC]. unfold guideStep at 1.
    destruct (guideFires text files m) as [[|]|e]; cbn [bind fst snd];
      [| |reflexivity].
    + destruct (num_truthy (Number _)) eqn:Hb; cbn [bind]; rewrite IH;
        destruct (filterC _ ms) as [fired|e]; cbn [bind]; try reflexivity;
        cbn [map flat_map].
      * rewrite (double_bonusHits_truthy m Hb).
        change (contribute (guideHit m) t) with (extend t [guideHit m]).
        rewrite double_extend_app, <- app_assoc. reflexivity.
      * rewrite (double_bonusHits_falsy m Hb), <- app_assoc. reflexivity.
    + rewrite IH. destruct (filterC _ ms); reflexivity.
Qed.

(** [scoreOne] returns exactly when its sections are present and its
    compilations succeed, and then the record is determined by the
    trail. *)
Lemma double_scoreOne_Return it rules d :
  scoreOne it rules = Return d <->
  exists ss sc dc textRes pathRes fired,
    strongSignals rules = Some ss /\ scoring rules = Some sc
    /\ decision rules = Some dc
    /\ strongLoop (combinedText it) (default [] (patterns ss))
       = Return (strongHit d)
    /\ compileWeightedRegexMap (textKeywordWeights sc) = Return textRes
    /\ compileWeightedRegexMap (pathWeights sc) = Return pathRes
    /\ filterC (guideFires (combinedText it) (files it))
               (default [] (securityGuideMapping rules)) = Return fired
    /\ hits d = trail it (default ∅ (labelWeights sc)) textRes pathRes fired
    /\ tags d = map tag fired
    /\ score d = sum_weights (hits d)
    /\ adopt d =
         negb (String.eqb (strongHit d) EmptyString)
         || num_ge (score d)
              (Number (coalesce (threshold dc) (VNum 8%float))).
Proof.
  unfold scoreOne. split.
  - intros Hd.
    unbind Hd. apply deref_Return in Hx.
    unbind Hd. unbind Hd. apply deref_Return in Hx1.
    unbind Hd. unbind Hd. unbind Hd.
    unbind Hd. apply deref_Return in Hx5. injection Hd as <-.
    rewrite (double_fold_left_extend _ _ (double_labelStep_extend _)) in Hx4.
    rewrite (double_fold_left_extend _ _ (double_textStep_extend _)) in Hx4.
    rewrite (double_fold_left_extend _ _ (double_pathStep_extend _)) in Hx4.
    rewrite !double_extend_app, double_guideLoop_closed in Hx4.
    unbind Hx4. injection Hx4 as <-.
    cbn [adopt score strongHit tags hits fst snd].
    exists x, x1, x5, x2, x3, x6.
    rewrite double_extend_app.
    repeat split; try assumption; try reflexivity.
    unfold trail. cbn [extend t_hits]. now rewrite <- !app_assoc.
  - intros (ss & sc & dc & textRes & pathRes & fired & Hss & Hsc & Hdc
            & Hstrong & Htext & Hpath & Hfired & Hhits & Htags & Hscore
            & Hadopt).
    rewrite Hss, Hsc, Hdc. cbn [deref bind].
    rewrite Hstrong, Htext, Hpath. cbn [bind].
    rewrite (double_fold_left_extend _ _ (double_labelStep_extend _)).
    rewrite (double_fold_left_extend _ _ (double_textStep_extend _)).
    rewrite (double_fold_left_extend _ _ (double_pathStep_extend _)).
    rewrite !double_extend_app, double_guideLoop_closed, Hfired.
    cbn [bind fst snd].
    f_equal. rewrite double_extend_app.
    destruct d as [a s sh tg hs]. cbn in *. subst.
    unfold trail. rewrite <- !app_assoc. reflexivity.
Qed.

(** The record of a run whose parts are known. *)
Lemma double_scoreOne_trail it rules ss sc dc sh textRes pathRes fired :
  strongSignals rules = Some ss -> scoring rules = Some sc ->
  decision rules = Some dc ->
  strongLoop (combinedText it) (default [] (patterns ss)) = Return sh ->
  compileWeightedRegexMap (textKeywordWeights sc) = Return textRes ->
  compileWeightedRegexMap (pathWeights sc) = Return pathRes ->
  filterC (guideFires (combinedText it) (files it))
          (default [] (securityGuideMapping rules)) = Return fired ->
  exists d,
    scoreOne it rules = Return d
    /\ hits d = trail it (default ∅ (labelWeights sc)) textRes pathRes fired
    /\ score d = sum_weights (hits d).
Proof.
  intros Hss Hsc Hdc Hsh Htext Hpath Hfired.
  set (hs := trail it (default ∅ (labelWeights sc)) textRes pathRes fired).
  exists {| adopt :=
              negb (String.eqb sh EmptyString)
              || num_ge (sum_weights hs)
                   (Number (coalesce (threshold dc) (VNum 8%float)));
            score := sum_weights hs; strongHit := sh;
            tags := map tag fired; hits := hs |}.
  split; [|split; reflexivity].
  apply double_scoreOne_Return.
  exists ss, sc, dc, textRes, pathRes, fired.
  cbn [adopt score strongHit tags hits]. auto 12.
Qed.

Lemma double_compile_entry pre e post rs :
  compileWeightedRegexMap (Some (pre ++ e :: post)) = Return rs ->
  exists rpre r rpost,
    compiled e r
    /\ compileWeightedRegexMap (Some (pre ++ post)) = Return (rpre ++ rpost)
    /\ rs = rpre ++ r :: rpost.
Proof.
  unfold compileWeightedRegexMap. cbn [default]. intros Hrs.
  apply mapC_app in Hrs as (rpre & rrest & Hpre & Hrest & ->).
  cbn [mapC] in Hrest. unbind Hrest. unbind Hrest. injection Hrest as <-.
  unbind Hx. injection Hx as <-.
  unfold newRegExp in Hx1.
  destruct (regexp_new (fst e)) as [r|] eqn:He; [|discriminate].
  injection Hx1 as <-.
  exists rpre, {| re := r; pattern := fst e;
                  weight := num_or (Number (snd e)) 0%float |}, x0.
  split; [repeat split; exact He|].
  split; [apply mapC_app; eauto | reflexivity].
Qed.

(** [Number(weight) || 0] is never [NaN]. *)
Lemma double_weight_is_a_number (x : float) :
  PrimFloat.is_nan (num_or x 0%float) = false.
Proof.
  unfold num_or. destruct (num_truthy x) eqn:Hx; [|reflexivity].
  unfold num_truthy in Hx. apply andb_prop in Hx as [_ Hx].
  now apply negb_true_iff in Hx.
Qed.

Lemma double_pathHits_weights files r :
  map w (pathHits files r) =
  repeat (weight r)
    (length (filter (fun f => regexp_test (re r) f = true) files)).
Proof.
  unfold pathHits.
  induction (filter (fun f => regexp_test (re r) f = true) files)
    as [|f fs IH]; [reflexivity|].
  cbn [map length repeat]. now rewrite IH.
Qed.

(** ** The claims on the running score *)

(** C2, as amended. The score of the returned record is the sum of the
    [w] fields of its [hits] added one after another, from [0] and in
    trail order, by the addition of doubles: summing the trail in this
    way reproduces the score. *)
Theorem score_is_running_sum_of_hit_weights it rules d :
  scoreOne it rules = Return d ->
  score d = fold_left num_add (map w (hits d)) 0%float.
Proof.
  intros Hd. apply double_scoreOne_Return in Hd
    as (ss & sc & dc & textRes & pathRes & fired & _ & _ & _ & _ & _ & _
        & _ & _ & _ & Hscore & _).
  exact Hscore.
Qed.

(** C4. Every entry of [pathWeights] is tested against each file of
    the item on its own. Compared with the same rules without the
    entry, whose trail is [h1 ++ h2], the trail gains between [h1] and
    [h2] one [Path] hit per occurrence of a matching file, carrying that
    file and the weight of the entry, and the weight is added to the
    running score once per such hit, after the weights of [h1] and
    before those of [h2]. *)
Theorem path_weight_counts_every_matching_file it rules d sc pre p v post :
  scoreOne it rules = Return d ->
  scoring rules = Some sc ->
  pathWeights sc = Some (pre ++ (p, v) :: post) ->
  exists r d' h1 h2,
    regexp_new p = Some r
    /\ scoreOne it (withPathWeights (pre ++ post) rules) = Return d'
    /\ hits d' = h1 ++ h2
    /\ score d' = fold_left num_add (map w h2) (sum_weights h1)
    /\ let wt := num_or (Number v) 0%float in
       let matched := filter (fun f => regexp_test r f = true) (files it) in
       PrimFloat.is_nan wt = false
       /\ hits d =
            h1 ++ map (fun f => {| type := Path; what := p; file := Some f;
                                   w := wt |}) matched
               ++ h2
       /\ score d =
            fold_left num_add (map w h2)
              (fold_left num_add (repeat wt (length matched))
                 (sum_weights h1)).
Proof.
  intros Hd Hsc Hes. apply double_scoreOne_Return in Hd
    as (ss & sc' & dc & textRes & pathRes & fired & Hss & Hsc' & Hdc
        & Hstrong & Htext & Hpath & Hfired & Hhits & Htags & Hscore
        & Hadopt).
  assert (sc' = sc) as -> by congruence.
  rewrite Hes in Hpath.
  apply double_compile_entry in Hpath
    as (rpre & r & rpost & (Hre & Hpat & Hwt) & Hboth & ->).
  cbn [fst snd] in Hre, Hpat, Hwt.
  set (lw := default ∅ (labelWeights sc)) in *.
  set (h1 := flat_map (labelHits lw) (labels it)
             ++ flat_map (textHits (combinedText it)) textRes
             ++ flat_map (pathHits (files it)) rpre).
  set (h2 := flat_map (pathHits (files it)) rpost
             ++ flat_map bonusHits fired).
  assert (Hmid : hits d = h1 ++ pathHits (files it) r ++ h2).
  { rewrite Hhits. unfold trail, h1, h2. rewrite flat_map_middle.
    now rewrite <- !app_assoc. }
  destruct (double_scoreOne_trail it (withPathWeights (pre ++ post) rules)
              ss {| labelWeights := labelWeights sc;
                    textKeywordWeights := textKeywordWeights sc;
                    pathWeights := Some (pre ++ post) |}
              dc (strongHit d) textRes (rpre ++ rpost) fired)
    as (d' & Hd' & Hhits' & Hscore');
    cbn [withPathWeights strongSignals scoring decision
         securityGuideMapping textKeywordWeights pathWeights labelWeights];
    try eassumption.
  { now rewrite Hsc. }
  cbn [labelWeights] in Hhits'. fold lw in Hhits'.
  assert (Hout : hits d' = h1 ++ h2).
  { rewrite Hhits'. unfold trail, h1, h2. rewrite flat_map_app.
    now rewrite <- !app_assoc. }
  exists (re r), d', h1, h2.
  split; [exact Hre|]. split; [exact Hd'|]. split; [exact Hout|].
  split; [now rewrite Hscore', Hout, double_sum_weights_app|].
  cbv zeta. rewrite <- Hwt.
  split; [rewrite Hwt; apply double_weight_is_a_number|].
  assert (Hph : pathHits (files it) r =
                map (fun f => {| type := Path; what := p; file := Some f;
                                 w := weight r |})
                    (filter (fun f => regexp_test (re r) f = true) (files it))).
  { unfold pathHits. apply map_ext. intros f. unfold pathHit.
    now rewrite Hpat. }
  split; [now rewrite <- Hph|].
  rewrite Hscore, Hmid, !double_sum_weights_app, map_app, fold_left_app.
  now rewrite double_pathHits_weights.
Qed.

(** C5. Every entry of [textKeywordWeights] is tested once against
    the combined text. Compared with the same rules without the entry,
    whose trail is [h1 ++ h2], a match puts one [Text] hit between [h1]
    and [h2] and adds the weight of the entry once to the running score,
    after the weights of [h1] and before those of [h2]; no match changes
    neither the trail nor the score. *)
Theorem text_keyword_counts_once it rules d sc pre p v post :
  scoreOne it rules = Return d ->
  scoring rules = Some sc ->
  textKeywordWeights sc = Some (pre ++ (p, v) :: post) ->
  exists r d' h1 h2,
    regexp_new p = Some r
    /\ scoreOne it (withTextKeywordWeights (pre ++ post) rules) = Return d'
    /\ hits d' = h1 ++ h2
    /\ score d' = fold_left num_add (map w h2) (sum_weights h1)
    /\ let wt := num_or (Number v) 0%float in
       PrimFloat.is_nan wt = false
       /\ if regexp_test r (combinedText it)
          then hits d = h1 ++ {| type := Text; what := p; file := None;
                                 w := wt |} :: h2
               /\ score d =
                    fold_left num_add (map w h2)
                      (num_add (sum_weights h1) wt)
          else hits d = hits d' /\ score d = score d'.
Proof.
  intros Hd Hsc Hes. apply double_scoreOne_Return in Hd
    as (ss & sc' & dc & textRes & pathRes & fired & Hss & Hsc' & Hdc
        & Hstrong & Htext & Hpath & Hfired & Hhits & Htags & Hscore
        & Hadopt).
  assert (sc' = sc) as -> by congruence.
  rewrite Hes in Htext.
  apply double_compile_entry in Htext
    as (rpre & r & rpost & (Hre & Hpat & Hwt) & Hboth & ->).
  cbn [fst snd] in Hre, Hpat, Hwt.
  set (lw := default ∅ (labelWeights sc)) in *.
  set (h1 := flat_map (labelHits lw) (labels it)
             ++ flat_map (textHits (combinedText it)) rpre).
  set (h2 := flat_map (textHits (combinedText it)) rpost
             ++ flat_map (pathHits (files it)) pathRes
             ++ flat_map bonusHits fired).
  assert (Hmid : hits d = h1 ++ textHits (combinedText it) r ++ h2).
  { rewrite Hhits. unfold trail, h1, h2. rewrite flat_map_middle.
    now rewrite <- !app_assoc. }
  destruct (double_scoreOne_trail it
              (withTextKeywordWeights (pre ++ post) rules)
              ss {| labelWeights := labelWeights sc;
                    textKeywordWeights := Some (pre ++ post);
                    pathWeights := pathWeights sc |}
              dc (strongHit d) (rpre ++ rpost) pathRes fired)
    as (d' & Hd' & Hhits' & Hscore');
    cbn [withTextKeywordWeights strongSignals scoring decision
         securityGuideMapping textKeywordWeights pathWeights labelWeights];
    try eassumption.
  { now rewrite Hsc. }
  cbn [labelWeights] in Hhits'. fold lw in Hhits'.
  assert (Hout : hits d' = h1 ++ h2).
  { rewrite Hhits'. unfold trail, h1, h2. rewrite flat_map_app.
    now rewrite <- !app_assoc. }
  exists (re r), d', h1, h2.
  split; [exact Hre|]. split; [exact Hd'|]. split; [exact Hout|].
  split; [now rewrite Hscore', Hout, double_sum_weights_app|].
  cbv zeta. split; [apply double_weight_is_a_number|].
  unfold textHits in Hmid.
  destruct (regexp_test (re r) (combinedText it)).
  - rewrite Hpat, Hwt in Hmid. cbn [app] in Hmid. split; [exact Hmid|].
    rewrite Hscore, Hmid, double_sum_weights_app. reflexivity.
  - cbn [app] in Hmid. split; [congruence|].
    now rewrite Hscore, Hscore', Hmid, Hout.
Qed.

End DoublesProperties.

(** ** The claims on the running score, on the sample data *)

Module OnDoubleSamples.
Import Samples.
Import Doubles.

(** The labels of [labelled] weigh [2^53] and [1]; both are recorded,
    they sum to [2^53 + 1], and the score is [2^53]. *)
Lemma score_is_not_the_exact_sum_of_hit_weights :
  scoreOne labelled largeRules = Return largeRecord
  /\ integerSum (hits largeRecord) = Some 9007199254740993
  /\ integerValue (score largeRecord) = Some 9007199254740992.
Proof. repeat split; vm_compute; reflexivity. Qed.

Lemma score_is_running_sum_of_hit_weights_witness :
  score largeRecord = fold_left num_add (map w (hits largeRecord)) 0%float.
Proof.
  apply (score_is_running_sum_of_hit_weights labelled largeRules).
  vm_compute. reflexivity.
Defined.

Lemma path_weight_counts_every_matching_file_witness :
  exists d' h1 h2,
    scoreOne pr (withPathWeights [("test/", VNull)] fractionRules)
    = Return d'
    /\ hits d' = h1 ++ h2
    /\ score d' = fold_left num_add (map w h2) (sum_weights h1)
    /\ hits fractionRecord = h1 ++ [tenthHit; tenthHit] ++ h2
    /\ score fractionRecord =
         fold_left num_add (map w h2)
           (num_add (num_add (sum_weights h1) tenth) tenth).
Proof.
  destruct (path_weight_counts_every_matching_file pr fractionRules
              fractionRecord fractionScoring
              [] "lib/" (VNum tenth) [("test/", VNull)])
    as (r & d' & h1 & h2 & Hr & Hd' & Hh' & Hs' & _ & Hh & Hs);
    try (vm_compute; reflexivity).
  injection Hr as <-.
  exists d', h1, h2. auto.
Defined.

Lemma text_keyword_counts_once_witness :
  exists d' h1 h2,
    scoreOne pr (withTextKeywordWeights [("escaping", VStr "high")]
                                        fractionRules) = Return d'
    /\ hits d' = h1 ++ h2
    /\ score d' = fold_left num_add (map w h2) (sum_weights h1)
    /\ hits fractionRecord = h1 ++ fifthHit :: h2
    /\ score fractionRecord =
         fold_left num_add (map w h2) (num_add (sum_weights h1) fifth).
Proof.
  destruct (text_keyword_counts_once pr fractionRules
              fractionRecord fractionScoring
              [] "CVE" (VNum fifth) [("escaping", VStr "high")])
    as (r & d' & h1 & h2 & Hr & Hd' & Hh' & Hs' & _ & Hh);
    try (vm_compute; reflexivity).
  injection Hr as <-. destruct Hh as [Hh Hs].
  exists d', h1, h2. auto.
Defined.

End OnDoubleSamples.

(** * Further properties of the engine *)

Section MoreEngineProperties.
Context `{H : Host}.

(** ** The order of the trail *)

Lemma Forall_labelHits lw ls :
  Forall (fun h => type h = Label) (flat_map (labelHits lw) ls).
Proof.
  apply List.Forall_forall. intros h Hh.
  apply in_labelHits in Hh as (_ & -> & _). reflexivity.
Qed.

(** The trail lists the label hits first, then the text hits, then the
    path hits, then the guide hits. *)
Theorem hits_are_grouped_by_kind it rules d :
  scoreOne it rules = Return d ->
  exists ls ts ps gs,
    hits d = ls ++ ts ++ ps ++ gs
    /\ Forall (fun h => type h = Label) ls
    /\ Forall (fun h => type h = Text) ts
    /\ Forall (fun h => type h = Path) ps
    /\ Forall (fun h => type h = Guide) gs.
Proof.
  intros Hd. apply scoreOne_Return in Hd
    as (ss & sc & dc & textRes & pathRes & fired & _ & _ & _ & _ & _ & _
        & _ & Hhits & _).
  eexists _, _, _, _. split; [exact Hhits|].
  split; [apply Forall_labelHits|].
  split; [|split]; apply List.Forall_forall; intros h Hh.
  - exact (in_textHits _ _ _ Hh).
  - exact (in_pathHits _ _ _ Hh).
  - exact (proj1 (in_bonusHits _ _ Hh)).
Qed.

(** ** Guide mappings *)

Lemma existsb_compiled ps rs s :
  mapC newRegExp ps = Return rs ->
  existsb (fun r => regexp_test r s) rs = existsb (fun p => matches p s) ps.
Proof.
  revert rs. induction ps as [|p ps IH]; intros rs Hrs.
  - injection Hrs as <-. reflexivity.
  - cbn [mapC] in Hrs. unbind Hrs. unbind Hrs. injection Hrs as <-.
    cbn [existsb]. rewrite (IH _ Hx0). f_equal.
    unfold newRegExp in Hx. unfold matches.
    destruct (regexp_new p); [|discriminate]. now injection Hx as <-.
Qed.

Lemma guideFires_fires text files m b :
  guideFires text files m = Return b -> b = fires text files m.
Proof.
  unfold guideFires, fires. intros Hb. unbind Hb. unbind Hb.
  injection Hb as <-. rewrite (existsb_compiled _ _ _ Hx). f_equal.
  induction files as [|f fs IH]; [reflexivity|].
  cbn [existsb]. now rewrite IH, (existsb_compiled _ _ _ Hx0).
Qed.

Lemma filterC_guideFires_filter text files ms fired :
  filterC (guideFires text files) ms = Return fired ->
  fired = List.filter (fires text files) ms.
Proof.
  revert fired. induction ms as [|m ms IH]; intros fired Hf.
  - now injection Hf as <-.
  - cbn [filterC] in Hf. unbind Hf. unbind Hf. injection Hf as <-.
    cbn [List.filter]. rewrite <- (guideFires_fires _ _ _ _ Hx), <- (IH _ Hx0).
    reflexivity.
Qed.

(** The tags of the record are the tags of the mappings whose condition
    holds, in the order of the rule file and without removing
    duplicates; the guide hits are those of these mappings whose bonus is
    neither [0] nor [NaN]. *)
Theorem tags_are_the_fired_mappings it rules d :
  scoreOne it rules = Return d ->
  let fired :=
    List.filter (fires (combinedText it) (files it))
                (default [] (securityGuideMapping rules)) in
  tags d = map tag fired
  /\ List.filter (fun h => match type h with Guide => true | _ => false end)
                 (hits d)
     = flat_map bonusHits fired.
Proof.
  intros Hd fired'. apply scoreOne_Return in Hd
    as (ss & sc & dc & textRes & pathRes & fired & _ & _ & _ & _ & _ & _
        & Hfired & Hhits & Htags & _).
  apply filterC_guideFires_filter in Hfired. subst fired'.
  rewrite <- Hfired. split; [exact Htags|].
  rewrite Hhits. unfold trail. rewrite !List.filter_app.
  assert (Hnone : forall (hs : list Hit) k,
             k <> Guide -> Forall (fun h => type h = k) hs ->
             List.filter (fun h => match type h with
                                   | Guide => true | _ => false end) hs = []).
  { intros hs k Hk Hall. induction Hall as [|h hs Hh _ IH]; [reflexivity|].
    cbn [List.filter]. rewrite Hh, IH. destruct k; congruence. }
  rewrite (Hnone _ Label), (Hnone _ Text), (Hnone _ Path); try discriminate.
  - cbn [app]. apply forallb_filter_id. apply forallb_forall.
    intros h Hh. now rewrite (proj1 (in_bonusHits _ _ Hh)).
  - apply List.Forall_forall. intros h. apply in_pathHits.
  - apply List.Forall_forall. intros h. apply in_textHits.
  - apply Forall_labelHits.
Qed.

Lemma same_record_gen it it' rules rules' d d' :
  scoreOne it rules = Return d -> scoreOne it' rules' = Return d' ->
  decision rules' = decision rules ->
  strongHit d' = strongHit d -> tags d' = tags d -> hits d' = hits d ->
  d' = d.
Proof.
  intros Hd Hd' Hdec Hsh Htg Hhs.
  destruct (proj1 (scoreOne_Return _ _ _) Hd)
    as (_ & _ & dc & _ & _ & _ & _ & _ & Hdc & _).
  rewrite (scoreOne_assembled _ _ _ _ Hd Hdc).
  rewrite (scoreOne_assembled _ _ d' dc Hd') by congruence.
  now rewrite Hsh, Htg, Hhs.
Qed.

(** The strong-signal result only depends on the text and the
    patterns. *)
Lemma same_strongHit it it' rules rules' d d' :
  scoreOne it rules = Return d -> scoreOne it' rules' = Return d' ->
  strongSignals rules' = strongSignals rules ->
  combinedText it' = combinedText it ->
  strongHit d' = strongHit d.
Proof.
  intros Hd Hd' Hss Htext.
  apply scoreOne_Return in Hd
    as (ss & _ & _ & _ & _ & _ & Hs & _ & _ & Hsh & _).
  apply scoreOne_Return in Hd'
    as (ss' & _ & _ & _ & _ & _ & Hs' & _ & _ & Hsh' & _).
  rewrite Hss, Hs in Hs'. injection Hs' as <-.
  rewrite Htext in Hsh'. congruence.
Qed.

(** A mapping without keyword and path patterns never fires: taking it
    out of the rule file leaves every record unchanged. *)
Theorem mapping_without_patterns_never_fires it rules d pre m post :
  scoreOne it rules = Return d ->
  securityGuideMapping rules = Some (pre ++ m :: post) ->
  guidePatterns m = [] ->
  scoreOne it (withGuideMapping (pre ++ post) rules) = Return d.
Proof.
  intros Hd Hms Hnone.
  destruct (guide_effect _ _ _ _ _ _ Hd Hms)
    as (fired & d' & h1 & h2 & t1 & t2 & Hf & Hd' & Hh & Hh' & Ht & Ht' & _).
  apply guideFires_fires in Hf. unfold fires in Hf.
  unfold guidePatterns in Hnone. apply app_eq_nil in Hnone as [Hk Hp].
  rewrite Hk, Hp in Hf. cbn [existsb orb] in Hf.
  assert (Hfalse : fired = false).
  { rewrite Hf. clear. induction (files it); [reflexivity | assumption]. }
  rewrite Hfalse in Hh, Ht. cbn [app] in Hh, Ht.
  rewrite Hd'. f_equal.
  apply (same_record_gen _ _ _ _ _ _ Hd Hd'); try reflexivity.
  - apply (same_strongHit _ _ _ _ _ _ Hd Hd'); reflexivity.
  - congruence.
  - congruence.
Qed.

(** ** Items without files *)

(** With an empty file list no path hit is recorded, and a guide
    mapping fires through its keywords only. *)
Theorem no_files_no_path_hits it rules d :
  scoreOne it rules = Return d ->
  files it = [] ->
  Forall (fun h => type h <> Path) (hits d)
  /\ tags d =
       map tag
         (List.filter
            (fun m => existsb (fun k => matches k (combinedText it))
                              (default [] (keywords m)))
            (default [] (securityGuideMapping rules))).
Proof.
  intros Hd Hfiles. apply scoreOne_Return in Hd
    as (ss & sc & dc & textRes & pathRes & fired & _ & _ & _ & _ & _ & _
        & Hfired & Hhits & Htags & _).
  split.
  - rewrite Hhits. unfold trail. rewrite Hfiles.
    assert (Hnil : forall rs, flat_map (pathHits []) rs = []).
    { intros rs. induction rs as [|r rs IH]; [reflexivity | exact IH]. }
    rewrite Hnil. cbn [app].
    rewrite !Forall_app. split; [|split]; apply List.Forall_forall;
      intros h Hh.
    + apply in_labelHits in Hh as (_ & -> & _). discriminate.
    + rewrite (in_textHits _ _ _ Hh). discriminate.
    + rewrite (proj1 (in_bonusHits _ _ Hh)). discriminate.
  - rewrite Htags. f_equal.
    rewrite (filterC_guideFires_filter _ _ _ _ Hfired), Hfiles.
    apply List.filter_ext. intros m. unfold fires. cbn [existsb].
    apply orb_false_r.
Qed.

(** ** Failures under loaded rules *)

(** Under the rules that [readRules] returns an evaluation never fails
    on a missing section: if it throws, it throws the syntax error of a
    configured pattern that [new RegExp] rejects. *)
Theorem loaded_rules_fail_only_on_a_pattern it loaded e :
  scoreOne it (readRules loaded) = Throw e ->
  exists q,
    e = SyntaxError q
    /\ In q (configuredPatterns (readRules loaded))
    /\ malformed q = true.
Proof. apply scoreOne_readRules_Throw. Qed.

(** When every configured pattern compiles, every item is evaluated to
    a record. *)
Theorem well_formed_rules_always_evaluate it loaded :
  (forall p, In p (configuredPatterns (readRules loaded)) ->
             malformed p = false) ->
  exists d, scoreOne it (readRules loaded) = Return d.
Proof. apply scoreOne_total. Qed.

(** ** The threshold and the strong-signal result *)

(** When the configured threshold does not read as a number, no score
    reaches it: an item is adopted exactly when a non-empty strong-signal
    result is recorded. *)
Theorem unreadable_threshold_adopts_on_strong_signal_only it rules d dc :
  scoreOne it rules = Return d ->
  decision rules = Some dc ->
  Number (coalesce (threshold dc) (VNum (Num 8))) = NaN ->
  adopt d = negb (String.eqb (strongHit d) EmptyString).
Proof.
  intros Hd Hdc Hnan. apply scoreOne_Return in Hd
    as (ss & sc & dc' & textRes & pathRes & fired & _ & _ & Hdc' & _ & _
        & _ & _ & _ & _ & _ & Hadopt).
  assert (dc' = dc) as -> by congruence.
  rewrite Hadopt, Hnan. destruct (score d); cbn [num_ge]; apply orb_false_r.
Qed.

Lemma strongLoop_result text ps sh :
  strongLoop text ps = Return sh ->
  sh = EmptyString \/ (In sh ps /\ matches sh text = true).
Proof.
  induction ps as [|p ps IH]; cbn [strongLoop]; intros Hsh.
  - left. congruence.
  - unbind Hsh. unfold newRegExp in Hx.
    destruct (regexp_new p) as [r|] eqn:Hp; [|discriminate].
    injection Hx as <-.
    destruct (regexp_test r text) eqn:Ht.
    + injection Hsh as <-. right. split; [now left|].
      unfold matches. now rewrite Hp.
    + destruct (IH Hsh) as [->|[Hin Hm]]; [now left|].
      right. split; [now right | exact Hm].
Qed.

(** The recorded strong-signal result is the empty string or one of the
    configured strong-signal patterns, and that pattern matches the
    combined text. *)
Theorem strong_hit_is_a_matching_pattern it rules d ss :
  scoreOne it rules = Return d ->
  strongSignals rules = Some ss ->
  strongHit d = EmptyString
  \/ (In (strongHit d) (default [] (patterns ss))
      /\ matches (strongHit d) (combinedText it) = true).
Proof.
  intros Hd Hss. apply scoreOne_Return in Hd
    as (ss' & _ & _ & _ & _ & _ & Hss' & _ & _ & Hsh & _).
  assert (ss' = ss) as -> by congruence.
  exact (strongLoop_result _ _ _ Hsh).
Qed.

(** ** Compiling a weighted pattern map *)

(** A compiled map has one entry per entry of the map, in the order of
    the map, with the key as pattern, and no compiled weight is [NaN]. *)
Theorem compiled_map_keeps_entries_and_numbers obj rs :
  compileWeightedRegexMap obj = Return rs ->
  Forall2 compiled (default [] obj) rs
  /\ Forall (fun r => weight r <> NaN) rs.
Proof.
  unfold compileWeightedRegexMap. revert rs.
  induction (default [] obj) as [|e es IH]; intros rs Hrs.
  - injection Hrs as <-. split; constructor.
  - cbn [mapC] in Hrs. unbind Hrs. unbind Hrs. injection Hrs as <-.
    unbind Hx. injection Hx as <-.
    destruct (IH _ Hx0) as [Hall Hnum].
    unfold newRegExp in Hx1.
    destruct (regexp_new (fst e)) as [r|] eqn:He; [|discriminate].
    injection Hx1 as <-.
    split; constructor; try assumption.
    + repeat split. exact He.
    + cbn [weight]. destruct (num_or_Num (Number (snd e))) as (z & ->).
      discriminate.
Qed.

(** The compilation throws for the first key of the map that
    [new RegExp] rejects. *)
Theorem compile_reports_first_malformed_key obj pre p v post :
  default [] obj = pre ++ (p, v) :: post ->
  (forall q, In q (map fst pre) -> malformed q = false) ->
  malformed p = true ->
  compileWeightedRegexMap obj = Throw (SyntaxError p).
Proof.
  unfold compileWeightedRegexMap. intros -> Hpre Hp.
  induction pre as [|e pre IH]; cbn [app mapC].
  - unfold newRegExp, malformed in *.
    cbn [fst]. destruct (regexp_new p); [discriminate | reflexivity].
  - assert (He : malformed (fst e) = false) by (apply Hpre; now left).
    unfold newRegExp at 1. unfold malformed in He.
    destruct (regexp_new (fst e)); [|discriminate]. cbn [bind].
    rewrite IH; [reflexivity|]. intros q Hq. apply Hpre. now right.
Qed.

(** ** The order of labels and files *)

Lemma Permutation_flat_map_pointwise {A B : Type} (f g : A -> list B) xs :
  (forall x, Permutation (f x) (g x)) ->
  Permutation (flat_map f xs) (flat_map g xs).
Proof.
  intros Hfg. induction xs as [|x xs IH]; [constructor|].
  cbn [flat_map]. now apply Permutation_app.
Qed.

Lemma existsb_Permutation {A : Type} (f : A -> bool) xs ys :
  Permutation xs ys -> existsb f xs = existsb f ys.
Proof.
  induction 1 as [|x xs ys _ IH|x y xs|xs ys zs _ IHxy _ IHyz];
    cbn [existsb].
  - reflexivity.
  - now rewrite IH.
  - destruct (f x), (f y); reflexivity.
  - congruence.
Qed.

Lemma guideFires_Permutation text fs fs' m :
  Permutation fs fs' -> guideFires text fs m = guideFires text fs' m.
Proof.
  intros Hp. unfold guideFires.
  destruct (mapC newRegExp (default [] (keywords m))); [|reflexivity].
  destruct (mapC newRegExp (default [] (paths m))); [|reflexivity].
  cbn [bind]. now rewrite (existsb_Permutation _ _ _ Hp).
Qed.

Lemma filterC_ext {A : Type} (f g : A -> Completion bool) xs :
  (forall x, f x = g x) -> filterC f xs = filterC g xs.
Proof.
  intros Hfg. induction xs as [|x xs IH]; [reflexivity|].
  cbn [filterC]. now rewrite Hfg, IH.
Qed.

(** Listing the labels of an item in another order gives a record with
    the same strong-signal result, the same tags and the same hits in
    another order. (The score adds the same weights in another order.) *)
Theorem label_order_only_reorders_the_hits it rules d ls' :
  scoreOne it rules = Return d ->
  Permutation (labels it) ls' ->
  exists d',
    scoreOne (withLabels ls' it) rules = Return d'
    /\ strongHit d' = strongHit d /\ tags d' = tags d
    /\ Permutation (hits d) (hits d').
Proof.
  intros Hd Hperm. apply scoreOne_Return in Hd
    as (ss & sc & dc & textRes & pathRes & fired & Hss & Hsc & Hdc
        & Hstrong & Htext & Hpath & Hfired & Hhits & Htags & Hscore
        & Hadopt).
  assert (Hp : Permutation (hits d)
                 (trail (withLabels ls' it) (default ∅ (labelWeights sc))
                        textRes pathRes fired)).
  { rewrite Hhits. unfold trail. cbn [withLabels labels files].
    apply Permutation_app; [|reflexivity].
    now apply Permutation_flat_map. }
  eexists. split.
  - apply (scoreOne_assemble (withLabels ls' it) _ ss sc dc); eassumption.
  - cbn [assemble strongHit tags hits]. repeat split; auto.
Qed.

(** The same holds for the order of the files. *)
Theorem file_order_only_reorders_the_hits it rules d fs' :
  scoreOne it rules = Return d ->
  Permutation (files it) fs' ->
  exists d',
    scoreOne (withFiles fs' it) rules = Return d'
    /\ strongHit d' = strongHit d /\ tags d' = tags d
    /\ Permutation (hits d) (hits d').
Proof.
  intros Hd Hperm. apply scoreOne_Return in Hd
    as (ss & sc & dc & textRes & pathRes & fired & Hss & Hsc & Hdc
        & Hstrong & Htext & Hpath & Hfired & Hhits & Htags & Hscore
        & Hadopt).
  assert (Hp : Permutation (hits d)
                 (trail (withFiles fs' it) (default ∅ (labelWeights sc))
                        textRes pathRes fired)).
  { rewrite Hhits. unfold trail. cbn [withFiles labels files].
    apply Permutation_app; [reflexivity|].
    apply Permutation_app; [reflexivity|].
    apply Permutation_app; [|reflexivity].
    apply Permutation_flat_map_pointwise. intros r.
    rewrite !pathHits_flat_map. now apply Permutation_flat_map. }
  eexists. split.
  - apply (scoreOne_assemble (withFiles fs' it) _ ss sc dc);
      try eassumption.
    cbn [withFiles files].
    rewrite <- (filterC_ext _ _ _ (fun m =>
                  guideFires_Permutation (combinedText it) _ _ m Hperm)).
    exact Hfired.
  - cbn [assemble strongHit tags hits]. repeat split; auto.
Qed.

(** ** The scoring loop of the run *)

Lemma pickLoop_closed rules items acc picked :
  foldC (pickStep rules) items acc = Return picked <->
  exists ds,
    mapC (fun it => scoreOne it rules) items = Return ds
    /\ picked = acc ++ List.filter (fun p => adopt (snd p)) (combine items ds).
Proof.
  revert acc picked. induction items as [|it items IH]; intros acc picked.
  - cbn [foldC mapC]. split.
    + intros [= <-]. exists []. now rewrite app_nil_r.
    + intros (ds & [= <-] & ->). now rewrite app_nil_r.
  - cbn [foldC mapC]. unfold pickStep at 1. split.
    + intros Hp. unbind Hp. unbind Hx. rewrite Hx0. cbn [bind].
      assert (Hx' : x = if adopt x0 then acc ++ [(it, x0)] else acc)
        by (destruct (adopt x0); congruence).
      apply IH in Hp as (ds & Hds & ->). rewrite Hds. cbn [bind].
      exists (x0 :: ds). split; [reflexivity|].
      cbn [combine List.filter snd]. rewrite Hx'.
      destruct (adopt x0); [now rewrite <- app_assoc | reflexivity].
    + intros (ds & Hds & ->). unbind Hds. unbind Hds. injection Hds as <-.
      rewrite Hx. cbn [bind].
      assert (Hstep : (if adopt x then Return (acc ++ [(it, x)])
                       else Return acc)
                      = Return (if adopt x then acc ++ [(it, x)] else acc))
        by (destruct (adopt x); reflexivity).
      rewrite Hstep. cbn [bind]. apply IH. exists x0.
      split; [exact Hx0|].
      cbn [combine List.filter snd].
      destruct (adopt x); [now rewrite <- app_assoc | reflexivity].
Qed.

(** When the scoring loop of a run completes, every candidate that
    reached [scoreOne] was evaluated to a record, and the run has picked
    the candidates whose record says [adopt], each with its own record,
    in the order of the candidates. *)
Theorem main_has_picked_the_adopted_in_order loaded items picked :
  main loaded items = Return picked ->
  exists ds,
    mapC (fun it => scoreOne it (readRules loaded)) items = Return ds
    /\ picked = List.filter (fun p => adopt (snd p)) (combine items ds).
Proof. unfold main. apply pickLoop_closed. Qed.

Lemma mapC_Throw_at {A B : Type} (f : A -> Completion B) pre x post e :
  (forall y, In y pre -> exists b, f y = Return b) ->
  f x = Throw e ->
  mapC f (pre ++ x :: post) = Throw e.
Proof.
  intros Hpre Hx. induction pre as [|y pre IH]; cbn [app mapC].
  - now rewrite Hx.
  - destruct (Hpre y) as (b & Hb); [now left|]. rewrite Hb. cbn [bind].
    rewrite IH; [reflexivity|]. intros z Hz. apply Hpre. now right.
Qed.

(** A run is all or nothing: when the evaluation of one candidate
    throws, the run ends with that error and nothing is picked, whatever
    the candidates before it gave. *)
Theorem main_discards_everything_on_a_failure loaded pre it post e :
  (forall x, In x pre -> exists d, scoreOne x (readRules loaded) = Return d) ->
  scoreOne it (readRules loaded) = Throw e ->
  main loaded (pre ++ it :: post) = Throw e.
Proof.
  intros Hpre He.
  pose proof (mapC_Throw_at (fun x => scoreOne x (readRules loaded))
                pre it post e Hpre He) as Hmap.
  destruct (main loaded (pre ++ it :: post)) as [picked|e'] eqn:Hmain.
  - unfold main in Hmain. apply pickLoop_closed in Hmain as (ds & Hds & _).
    congruence.
  - f_equal. revert Hmain. unfold main.
    generalize (@nil (Item * DecisionRecord)).
    induction pre as [|y pre IH]; intros acc; cbn [app foldC].
    + unfold pickStep at 1. rewrite He. cbn [bind]. congruence.
    + destruct (Hpre y) as (dy & Hdy); [now left|].
      unfold pickStep at 1. rewrite Hdy. cbn [bind].
      assert (Hpre' : forall x, In x pre ->
                exists d, scoreOne x (readRules loaded) = Return d)
        by (intros x Hx; apply Hpre; now right).
      assert (Hmap' : mapC (fun x => scoreOne x (readRules loaded))
                        (pre ++ it :: post) = Throw e)
        by (apply mapC_Throw_at; assumption).
      destruct (adopt dy); cbn [bind]; apply IH; assumption.
Qed.

(** Without a rule document, or with an empty one, no candidate is
    picked. *)
Theorem no_rules_pick_nothing items : main None items = Return [].
Proof.
  unfold main. apply pickLoop_closed.
  exists (map (fun _ => {| adopt := false; score := Num 0;
                           strongHit := EmptyString; tags := [];
                           hits := [] |}) items).
  split.
  - induction items as [|it items IH]; [reflexivity|].
    cbn [mapC map]. now rewrite scoreOne_no_rules, IH.
  - induction items as [|it items IH]; [reflexivity|].
    cbn [map combine List.filter snd adopt]. exact IH.
Qed.

End MoreEngineProperties.

(** * Properties of the helpers *)

(** ** Escaping for Markdown *)

Lemma escapePipes_head s t : escapePipes s <> String pipe t.
Proof.
  destruct s as [|c s]; cbn [escapePipes]; [discriminate|].
  destruct (Ascii.eqb c pipe) eqn:Hc; [discriminate|].
  intros [= -> _]. now rewrite Ascii.eqb_refl in Hc.
Qed.

(** In an escaped string every [|] stands directly behind a
    backslash. *)
Theorem mdEscape_leaves_no_bare_pipe s a b :
  mdEscape s = a +:+ String pipe b ->
  exists a', a = a' +:+ String backslash EmptyString.
Proof.
  unfold mdEscape. generalize (default EmptyString s). clear s.
  intros s. revert a. induction s as [|c s IH]; intros a Hs.
  - destruct a; discriminate.
  - cbn [escapePipes] in Hs. destruct (Ascii.eqb c pipe) eqn:Hc.
    + destruct a as [|x a]; [discriminate|].
      injection Hs as <- Hs.
      destruct a as [|y a].
      * exists EmptyString. reflexivity.
      * injection Hs as <- Hs. apply IH in Hs as (a' & ->).
        exists (String backslash (String pipe a')). reflexivity.
    + destruct a as [|x a].
      * injection Hs as -> _. now rewrite Ascii.eqb_refl in Hc.
      * injection Hs as <- Hs. apply IH in Hs as (a' & ->).
        exists (String c a'). reflexivity.
Qed.

Lemma escapePipes_app a b :
  escapePipes (a +:+ b) = escapePipes a +:+ escapePipes b.
Proof.
  induction a as [|c a IH]; [reflexivity|].
  change (String c a +:+ b) with (String c (a +:+ b)).
  cbn [escapePipes]. rewrite IH.
  destruct (Ascii.eqb c pipe); reflexivity.
Qed.

(** Escaping works character by character: it distributes over
    concatenation, adds one character per [|], and leaves a string
    without [|] as it is. *)
Theorem mdEscape_is_characterwise a b :
  mdEscape (Some (a +:+ b)) = mdEscape (Some a) +:+ mdEscape (Some b)
  /\ String.length (mdEscape (Some a)) = (String.length a + pipes a)%nat
  /\ (pipes a = 0%nat -> mdEscape (Some a) = a).
Proof.
  unfold mdEscape. cbn [default from_option id]. split; [|split].
  - apply escapePipes_app.
  - induction a as [|c a IH]; [reflexivity|].
    cbn [escapePipes pipes]. destruct (Ascii.eqb c pipe);
      cbn [String.length]; rewrite IH; lia.
  - induction a as [|c a IH]; [reflexivity|].
    cbn [escapePipes pipes]. destruct (Ascii.eqb c pipe); [discriminate|].
    intros Hp. now rewrite IH.
Qed.

(** Two different strings have different escaped forms. *)
Theorem mdEscape_is_injective a b :
  mdEscape (Some a) = mdEscape (Some b) -> a = b.
Proof.
  unfold mdEscape. cbn [default from_option id].
  revert b. induction a as [|c a IH]; intros b Hab.
  - destruct b as [|d b]; [reflexivity|].
    cbn [escapePipes] in Hab. destruct (Ascii.eqb d pipe); discriminate.
  - destruct b as [|d b].
    + cbn [escapePipes] in Hab. destruct (Ascii.eqb c pipe); discriminate.
    + cbn [escapePipes] in Hab.
      destruct (Ascii.eqb c pipe) eqn:Hc, (Ascii.eqb d pipe) eqn:Hd.
      * apply Ascii.eqb_eq in Hc, Hd. subst.
        injection Hab as Hab. now rewrite (IH _ Hab).
      * injection Hab as <- Hab. symmetry in Hab.
        now apply escapePipes_head in Hab.
      * injection Hab as -> Hab. now apply escapePipes_head in Hab.
      * injection Hab as <- Hab. now rewrite (IH _ Hab).
Qed.

(** ** The date of a timestamp *)

Lemma substring_prefix n d rest :
  String.length d = n -> String.substring 0 n (d +:+ rest) = d.
Proof.
  revert n. induction d as [|c d IH]; intros n Hn; cbn in Hn; subst n.
  - destruct rest; reflexivity.
  - change (String c d +:+ rest) with (String c (d +:+ rest)).
    cbn [String.substring String.length]. now rewrite IH.
Qed.

Lemma substring_length n s :
  String.length (String.substring 0 n s) = Nat.min n (String.length s).
Proof.
  revert s. induction n as [|n IH]; intros s.
  - destruct s; reflexivity.
  - destruct s as [|c s]; [reflexivity|].
    cbn [String.substring String.length]. now rewrite IH.
Qed.

(** [ymdFromIso] keeps the first ten characters: of a timestamp that
    starts with a ten-character date it returns the date, and it never
    returns more than ten characters. *)
Theorem ymdFromIso_is_the_leading_date date rest :
  String.length date = 10%nat ->
  ymdFromIso (date +:+ rest) = date
  /\ forall iso,
       String.length (ymdFromIso iso) = Nat.min 10 (String.length iso).
Proof.
  intros Hd. split; [now apply substring_prefix|].
  intros iso. apply substring_length.
Qed.

(** ** The GitHub helpers *)

Lemma andThen_Done {A B : Type} (c : Outcome A) (k : A -> Outcome B) b :
  andThen c k = Done b <-> exists a, c = Done a /\ k a = Done b.
Proof.
  split.
  - destruct c as [a|f]; cbn; [eauto | discriminate].
  - intros (a & -> & Hk). exact Hk.
Qed.

Lemma filterBoolean_truthy vs :
  Forall (fun j => truthy (Some j) = true) (filterBoolean vs).
Proof.
  unfold filterBoolean. apply List.Forall_forall. intros j Hj.
  apply in_flat_map in Hj as (v & _ & Hj).
  destruct v as [j'|]; [|destruct Hj].
  destruct (truthy (Some j')) eqn:Ht; [|destruct Hj].
  now destruct Hj as [<-|[]].
Qed.

Lemma filterBoolean_length vs :
  (length (filterBoolean vs) <= length vs)%nat.
Proof.
  unfold filterBoolean. induction vs as [|v vs IH]; [reflexivity|].
  cbn [flat_map]. rewrite length_app, length_cons.
  destruct v as [j|]; [destruct (truthy (Some j))|]; cbn [length]; lia.
Qed.

Lemma pushed_length items : (length (pushed items) <= length items)%nat.
Proof.
  unfold pushed. etransitivity; [apply filterBoolean_length|].
  now rewrite length_map.
Qed.

Section GitHubProperties.
Variable ghFetch : Request -> Outcome Json.

Lemma filesLoop_full number page pages items files sent :
  fullPage ghFetch number page items ->
  filesLoop ghFetch number (page :: pages) files sent =
  filesLoop ghFetch number pages (files ++ pushed items)
            (sent ++ [filesUrl number page]).
Proof.
  intros [Hf Hlen]. cbn [filesLoop]. rewrite Hf.
  unfold perPage in *.
  destruct (Nat.eqb_spec (length items) 0); [lia|].
  destruct (Nat.ltb_spec (length items) 100); [lia|]. reflexivity.
Qed.

Lemma filesLoop_short number page pages items files sent :
  ghFetch (filesUrl number page) = Done (JArray items) ->
  (length items < perPage)%nat ->
  filesLoop ghFetch number (page :: pages) files sent =
  (sent ++ [filesUrl number page], Done (files ++ pushed items)).
Proof.
  intros Hf Hlen. cbn [filesLoop]. rewrite Hf.
  destruct (Nat.eqb_spec (length items) 0) as [H0|H0].
  - apply length_zero_iff_nil in H0. subst items.
    now rewrite app_nil_r.
  - destruct (Nat.ltb_spec (length items) perPage); [reflexivity | lia].
Qed.

Lemma filesLoop_full_pages number p fulls rest files sent :
  Forall2 (fullPage ghFetch number) (seq p (length fulls)) fulls ->
  filesLoop ghFetch number (seq p (length fulls) ++ rest) files sent =
  filesLoop ghFetch number rest (files ++ flat_map pushed fulls)
            (sent ++ map (filesUrl number) (seq p (length fulls))).
Proof.
  revert p files sent. induction fulls as [|items fulls IH];
    intros p files sent Hall.
  - cbn. now rewrite !app_nil_r.
  - cbn [length seq app] in *. apply Forall2_cons_1 in Hall as [Hfull Hall].
    rewrite (filesLoop_full _ _ _ _ _ _ Hfull), (IH _ _ _ Hall).
    cbn [flat_map map]. now rewrite <- !app_assoc.
Qed.

(** [getPRFiles] sends the requests for pages 1, 2, 3 in this order and
    stops after at most three; it always sends the first. *)
Theorem getPRFiles_sends_at_most_three_requests number :
  exists k,
    (1 <= k <= 3)%nat
    /\ fst (getPRFiles ghFetch number) = map (filesUrl number) (seq 1 k).
Proof.
  assert (Hgen : forall m p files sent,
             exists k, (k <= m)%nat /\ (1 <= m -> 1 <= k)%nat
               /\ fst (filesLoop ghFetch number (seq p m) files sent)
                  = sent ++ map (filesUrl number) (seq p k)).
  { induction m as [|m IH]; intros p files sent.
    - exists 0%nat. cbn. rewrite app_nil_r. repeat split; lia.
    - cbn [seq filesLoop].
      assert (Hone : exists k, (k <= S m)%nat /\ (1 <= S m -> 1 <= k)%nat
                /\ sent ++ [filesUrl number p]
                   = sent ++ map (filesUrl number) (seq p k))
        by (exists 1%nat; repeat split; lia).
      destruct (ghFetch (filesUrl number p)) as [[| | | |items|]|f];
        cbn [fst]; try exact Hone.
      destruct (length items =? 0)%nat; cbn [fst]; [exact Hone|].
      destruct (length items <? perPage)%nat; cbn [fst]; [exact Hone|].
      destruct (IH (S p) (files ++ pushed items) (sent ++ [filesUrl number p]))
        as (k & Hk & _ & Hfst).
      exists (S k). rewrite Hfst. cbn [seq map].
      rewrite <- app_assoc. repeat split; lia. }
  destruct (Hgen 3%nat 1%nat [] []) as (k & Hk & Hk1 & Hfst).
  exists k. split; [lia|]. exact Hfst.
Qed.

(** When no page carries more than the [perPage] entries asked for, the
    list of files has at most 300 entries; every entry is a file name
    that is neither missing nor empty. *)
Theorem getPRFiles_returns_at_most_300_names number files :
  (forall page items,
     ghFetch (filesUrl number page) = Done (JArray items) ->
     (length items <= perPage)%nat) ->
  snd (getPRFiles ghFetch number) = Done files ->
  (length files <= 300)%nat
  /\ Forall (fun j => truthy (Some j) = true) files.
Proof.
  intros Hsize.
  assert (Hgen : forall pages acc sent fs,
             Forall (fun j => truthy (Some j) = true) acc ->
             snd (filesLoop ghFetch number pages acc sent) = Done fs ->
             (length fs <= length acc + perPage * length pages)%nat
             /\ Forall (fun j => truthy (Some j) = true) fs).
  { induction pages as [|p pages IH]; intros acc sent fs Hacc Hfs.
    - cbn in Hfs. injection Hfs as <-. split; [lia | exact Hacc].
    - cbn [filesLoop] in Hfs. cbn [length].
      destruct (ghFetch (filesUrl number p)) as [v|f] eqn:Hf;
        [|discriminate].
      assert (Hstop : Done acc = Done fs ->
                (length fs <= length acc + perPage * S (length pages))%nat
                /\ Forall (fun j => truthy (Some j) = true) fs)
        by (intros [= <-]; split; [lia | exact Hacc]).
      destruct v as [| | | |items|]; cbn [snd] in Hfs; try (now apply Hstop).
      destruct (length items =? 0)%nat; cbn [snd] in Hfs;
        [now apply Hstop|].
      pose proof (Hsize _ _ Hf) as Hle.
      pose proof (pushed_length items) as Hpl.
      assert (Hacc' : Forall (fun j => truthy (Some j) = true)
                        (acc ++ pushed items)).
      { apply Forall_app. split; [exact Hacc|].
        apply filterBoolean_truthy. }
      destruct (length items <? perPage)%nat; cbn [snd] in Hfs.
      + injection Hfs as <-. split; [|exact Hacc'].
        rewrite length_app. lia.
      + destruct (IH _ _ _ Hacc' Hfs) as [Hlen Hall].
        split; [|exact Hall]. rewrite length_app in Hlen. lia. }
  intros Hfs. destruct (Hgen _ [] _ _ (List.Forall_nil _) Hfs) as [Hlen Hall].
  split; [|exact Hall]. cbn in Hlen. lia.
Qed.

(** The listing ends with the first page that has fewer than [perPage]
    entries (or none): the full pages before it and this page give the
    file names, and no later page is requested. *)
Theorem getPRFiles_stops_at_the_first_short_page number fulls items :
  (length fulls < maxPages)%nat ->
  Forall2 (fullPage ghFetch number) (seq 1 (length fulls)) fulls ->
  ghFetch (filesUrl number (S (length fulls))) = Done (JArray items) ->
  (length items < perPage)%nat ->
  getPRFiles ghFetch number =
  (map (filesUrl number) (seq 1 (S (length fulls))),
   Done (flat_map pushed (fulls ++ [items]))).
Proof.
  intros Hk Hfulls Hlast Hshort. unfold getPRFiles.
  replace (seq 1 maxPages)
    with (seq 1 (length fulls)
          ++ S (length fulls) :: seq (S (S (length fulls)))
                                     (maxPages - S (length fulls))).
  - rewrite (filesLoop_full_pages _ _ _ _ _ _ Hfulls).
    rewrite (filesLoop_short _ _ _ _ _ _ Hlast Hshort).
    cbn [app]. rewrite seq_S, map_app, flat_map_app. cbn [map flat_map].
    now rewrite app_nil_r.
  - unfold maxPages in *.
    destruct fulls as [|a [|b [|c fulls]]]; cbn in *; try reflexivity; lia.
Qed.

(** A pull request with three full pages is cut after the third: the
    names of these pages are returned and a fourth page is never
    requested. *)
Theorem getPRFiles_cuts_after_three_full_pages number p1 p2 p3 :
  fullPage ghFetch number 1 p1 ->
  fullPage ghFetch number 2 p2 ->
  fullPage ghFetch number 3 p3 ->
  getPRFiles ghFetch number =
  ([filesUrl number 1; filesUrl number 2; filesUrl number 3],
   Done (pushed p1 ++ pushed p2 ++ pushed p3)).
Proof.
  intros H1 H2 H3. unfold getPRFiles. cbn [maxPages seq].
  rewrite (filesLoop_full _ _ _ _ _ _ H1), (filesLoop_full _ _ _ _ _ _ H2),
    (filesLoop_full _ _ _ _ _ _ H3).
  cbn [filesLoop app]. now rewrite <- app_assoc.
Qed.

(** When the request for a page fails after full pages, the listing
    fails with it: the names already read are not returned. *)
Theorem getPRFiles_fails_with_its_page number fulls f :
  (length fulls < maxPages)%nat ->
  Forall2 (fullPage ghFetch number) (seq 1 (length fulls)) fulls ->
  ghFetch (filesUrl number (S (length fulls))) = Failed f ->
  getPRFiles ghFetch number =
  (map (filesUrl number) (seq 1 (S (length fulls))), Failed f).
Proof.
  intros Hk Hfulls Hfail. unfold getPRFiles.
  replace (seq 1 maxPages)
    with (seq 1 (length fulls)
          ++ S (length fulls) :: seq (S (S (length fulls)))
                                     (maxPages - S (length fulls))).
  - rewrite (filesLoop_full_pages _ _ _ _ _ _ Hfulls).
    cbn [filesLoop]. rewrite Hfail.
    cbn [app]. now rewrite seq_S, map_app.
  - unfold maxPages in *.
    destruct fulls as [|a [|b [|c fulls]]]; cbn in *; try reflexivity; lia.
Qed.

(** The label names that [getIssueLabels] returns are neither missing
    nor empty, and an issue without [labels] has none. *)
Theorem getIssueLabels_returns_named_labels number names :
  getIssueLabels ghFetch number = Done names ->
  Forall (fun j => truthy (Some j) = true /\ j <> JString EmptyString) names
  /\ (forall fields,
        ghFetch (GetIssue number) = Done (JObject fields) ->
        field "labels" fields = None -> names = []).
Proof.
  unfold getIssueLabels. intros Hn.
  apply andThen_Done in Hn as (issue & Hissue & Hn).
  apply andThen_Done in Hn as (ls & Hls & Hn).
  split.
  - assert (Hall : Forall (fun j => truthy (Some j) = true) names).
    { destruct ls as [[| | | |xs|]|]; try discriminate;
        injection Hn as <-; try constructor.
      apply filterBoolean_truthy. }
    eapply Forall_impl; [exact Hall|].
    intros j Hj. split; [exact Hj|]. intros ->. discriminate.
  - intros fields Hf Hnone. rewrite Hf in Hissue. injection Hissue as <-.
    cbn [member] in Hls. injection Hls as <-. rewrite Hnone in Hn.
    now injection Hn as <-.
Qed.

Lemma mapO_null {A : Type} (f : Json -> Outcome A) items :
  (forall i, i <> JNull -> exists a, f i = Done a) ->
  f JNull = Failed NotAnObject ->
  In JNull items ->
  mapO f items = Failed NotAnObject.
Proof.
  intros Hok Hnull. induction items as [|i items IH]; [intros []|].
  intros Hin. cbn [mapO].
  assert (Hcase : i = JNull \/ i <> JNull)
    by (destruct i; (now left) || (right; discriminate)).
  destruct Hcase as [->|Hi]; [now rewrite Hnull|].
  destruct (Hok i Hi) as (a & Ha). rewrite Ha. cbn [andThen].
  destruct Hin as [Hin|Hin]; [congruence|]. now rewrite (IH Hin).
Qed.

(** The numbers that the search returns are neither missing nor [0];
    a result whose [items] is not an array gives none, and one that
    lists [null] among its items is a TypeError. *)
Theorem search_returns_usable_numbers date :
  (forall numbers,
     searchMergedPRNumbersSinceDate ghFetch date = Done numbers ->
     Forall (fun j => truthy (Some j) = true
                      /\ j <> JNumber (Num 0) /\ j <> JNull) numbers)
  /\ (forall fields items,
        ghFetch (SearchMerged date) = Done (JObject fields) ->
        field "items" fields = Some (JArray items) ->
        In JNull items ->
        searchMergedPRNumbersSinceDate ghFetch date = Failed NotAnObject)
  /\ (forall fields,
        ghFetch (SearchMerged date) = Done (JObject fields) ->
        (forall items, field "items" fields <> Some (JArray items)) ->
        searchMergedPRNumbersSinceDate ghFetch date = Done []).
Proof.
  unfold searchMergedPRNumbersSinceDate. split; [|split].
  - intros numbers Hn.
    apply andThen_Done in Hn as (data & _ & Hn).
    apply andThen_Done in Hn as (data_items & _ & Hn).
    apply andThen_Done in Hn as (ns & _ & Hn). injection Hn as <-.
    eapply Forall_impl; [apply filterBoolean_truthy|].
    intros j Hj. repeat split; [exact Hj| |]; intros ->; discriminate.
  - intros fields items Hf Hitems Hin. rewrite Hf. cbn [andThen member].
    rewrite Hitems.
    rewrite (mapO_null (fun i => member i "number") items); try reflexivity;
      [|exact Hin].
    intros i Hi. destruct i; try congruence; cbn [member]; eauto.
  - intros fields Hf Hnot. rewrite Hf. cbn [andThen member].
    destruct (field "items" fields) as [[| | | |xs|]|] eqn:Hi;
      try reflexivity.
    now destruct (Hnot xs).
Qed.

End GitHubProperties.

(** ** The digest document *)

Section MarkdownProperties.
Variable NumberToString : number -> string.

Lemma fileLines_length files :
  length (fileLines NumberToString files)
  = if (length files =? 0)%nat then 0%nat
    else (1 + Nat.min 20 (length files)
          + (if (20 <? length files)%nat then 1 else 0))%nat.
Proof.
  unfold fileLines. destruct (length files =? 0)%nat; [reflexivity|].
  cbv zeta. rewrite !length_app, length_map, length_firstn.
  cbn [length].
  destruct (Nat.ltb_spec (Nat.min 20 (length files)) (length files));
    destruct (Nat.ltb_spec 20 (length files)); cbn [length]; lia.
Qed.

Lemma hitLines_length hits :
  length (hitLines NumberToString hits)
  = if (length hits =? 0)%nat then 0%nat
    else (1 + Nat.min 8 (length hits)
          + (if (8 <? length hits)%nat then 1 else 0))%nat.
Proof.
  unfold hitLines. cbv zeta. rewrite length_firstn.
  destruct (Nat.eqb_spec (Nat.min 8 (length hits)) 0);
    destruct (Nat.eqb_spec (length hits) 0); try lia; [reflexivity|].
  rewrite !length_app, length_map, length_firstn. cbn [length].
  destruct (Nat.ltb_spec (Nat.min 8 (length hits)) (length hits));
    destruct (Nat.ltb_spec 8 (length hits)); cbn [length]; lia.
Qed.

(** However many files and hits a pull request has, its section lists
    at most 20 files and 8 hits, each list followed by one more line when
    it is cut, so the section has at most 39 lines. *)
Theorem item_section_is_bounded it :
  (length (fileLines NumberToString (pk_files it)) <= 22)%nat
  /\ (length (hitLines NumberToString (pk_hits it)) <= 10)%nat
  /\ (length (itemLines NumberToString it) <= 39)%nat.
Proof.
  assert (Hf : (length (fileLines NumberToString (pk_files it)) <= 22)%nat).
  { rewrite fileLines_length.
    destruct (length (pk_files it) =? 0)%nat; [lia|].
    destruct (20 <? length (pk_files it))%nat; lia. }
  assert (Hh : (length (hitLines NumberToString (pk_hits it)) <= 10)%nat).
  { rewrite hitLines_length.
    destruct (length (pk_hits it) =? 0)%nat; [lia|].
    destruct (8 <? length (pk_hits it))%nat; lia. }
  split; [exact Hf|]. split; [exact Hh|].
  unfold itemLines. rewrite !length_app.
  destruct (String.eqb (pk_strongHit it) EmptyString);
    destruct (length (pk_labels it) =? 0)%nat; cbn [length]; lia.
Qed.

(** The section of a pull request only depends on its first nine hits:
    the hits behind the ninth never reach the document. *)
Theorem hits_behind_the_ninth_are_never_shown hits :
  hitLines NumberToString hits = hitLines NumberToString (firstn 9 hits).
Proof.
  unfold hitLines. cbv zeta.
  assert (Htop : firstn 8 (firstn 9 hits) = firstn 8 hits).
  { rewrite firstn_firstn. reflexivity. }
  rewrite Htop, !length_firstn.
  destruct (Nat.min 8 (length hits) =? 0)%nat; [reflexivity|].
  f_equal. f_equal.
  destruct (Nat.ltb_spec (Nat.min 8 (length hits)) (length hits));
    destruct (Nat.ltb_spec (Nat.min 8 (length hits))
                           (Nat.min 9 (length hits)));
    try reflexivity; lia.
Qed.

Lemma prefix_app a b : String.prefix a (a +:+ b) = true.
Proof.
  induction a as [|c a IH]; [now destruct b|].
  change (String c a +:+ b) with (String c (a +:+ b)).
  cbn [String.prefix]. destruct (ascii_dec c c); [exact IH | congruence].
Qed.

Lemma headings_of_item it :
  length (List.filter isHeading (itemLines NumberToString it)) = 1%nat.
Proof.
  unfold itemLines. rewrite !List.filter_app, !length_app.
  assert (Hfiles : List.filter isHeading
                     (fileLines NumberToString (pk_files it)) = []).
  { unfold fileLines. destruct (length (pk_files it) =? 0)%nat; [reflexivity|].
    cbv zeta. rewrite !List.filter_app.
    assert (Hm : forall fs,
               List.filter isHeading
                 (map (fun f => "  - " +:+ code (mdEscape (Some f))) fs)
               = []).
    { induction fs as [|f fs IH]; [reflexivity | exact IH]. }
    rewrite Hm. destruct (_ <? _)%nat; reflexivity. }
  assert (Hhits : List.filter isHeading (hitLines NumberToString (pk_hits it))
                  = []).
  { unfold hitLines. cbv zeta.
    destruct (length (firstn 8 (pk_hits it)) =? 0)%nat; [reflexivity|].
    rewrite !List.filter_app.
    assert (Hm : forall hs, List.filter isHeading
                   (map (hitLine NumberToString) hs) = []).
    { induction hs as [|h hs IH]; [reflexivity|].
      cbn [map List.filter]. unfold hitLine at 1.
      destruct (type h); exact IH. }
    rewrite Hm. destruct (_ <? _)%nat; reflexivity. }
  rewrite Hfiles, Hhits. cbn [List.filter]. unfold isHeading at 1.
  rewrite prefix_app.
  destruct (String.eqb (pk_strongHit it) EmptyString);
    destruct (length (pk_labels it) =? 0)%nat; reflexivity.
Qed.

Lemma headings_of_items items :
  length (List.filter isHeading (flat_map (itemLines NumberToString) items))
  = length items.
Proof.
  induction items as [|it items IH]; [reflexivity|].
  cbn [flat_map length].
  now rewrite List.filter_app, length_app, headings_of_item, IH.
Qed.

(** Among the lines of the document exactly one per picked pull request
    opens a section, and without pull requests none does. *)
Theorem one_heading_per_picked_item generatedAt sinceIso items :
  length (List.filter isHeading
            (buildMarkdownLines NumberToString generatedAt sinceIso items))
  = length items.
Proof.
  unfold buildMarkdownLines. rewrite List.filter_app, length_app.
  assert (Hhead : length (List.filter isHeading
                            (headerLines generatedAt sinceIso)) = 0%nat)
    by reflexivity.
  rewrite Hhead. destruct items as [|it items]; [reflexivity|].
  cbn [length Nat.eqb]. rewrite headings_of_items. reflexivity.
Qed.

End MarkdownProperties.

(** ** The further properties on sample data *)

Module OnMoreSamples.
Import Samples MoreSamples.

Lemma hits_are_grouped_by_kind_witness :
  exists ls ts ps gs,
    hits (sampleRecord "CVE") = ls ++ ts ++ ps ++ gs
    /\ Forall (fun h => type h = Label) ls
    /\ Forall (fun h => type h = Text) ts
    /\ Forall (fun h => type h = Path) ps
    /\ Forall (fun h => type h = Guide) gs.
Proof.
  apply (hits_are_grouped_by_kind pr sampleRules).
  vm_compute. reflexivity.
Defined.

Lemma tags_are_the_fired_mappings_witness :
  tags (sampleRecord "CVE")
  = map tag (List.filter (fires (combinedText pr) (files pr)) [xss; csrf]).
Proof.
  apply (tags_are_the_fired_mappings pr sampleRules (sampleRecord "CVE")).
  vm_compute. reflexivity.
Defined.

Lemma mapping_without_patterns_never_fires_witness :
  scoreOne pr (withGuideMapping ([xss] ++ [csrf]) idleRules)
  = Return (sampleRecord "CVE").
Proof.
  apply (mapping_without_patterns_never_fires pr idleRules
           (sampleRecord "CVE") [xss] idle [csrf]).
  - vm_compute. reflexivity.
  - reflexivity.
  - reflexivity.
Defined.

Lemma no_files_no_path_hits_witness :
  Forall (fun h => type h <> Path) (hits noFilesRecord).
Proof.
  apply (no_files_no_path_hits (withFiles [] pr) sampleRules noFilesRecord).
  - vm_compute. reflexivity.
  - reflexivity.
Defined.

Lemma loaded_rules_fail_only_on_a_pattern_witness :
  exists q,
    SyntaxError "(" = SyntaxError q
    /\ In q (configuredPatterns (readRules (Some brokenRules)))
    /\ malformed q = true.
Proof.
  apply (loaded_rules_fail_only_on_a_pattern pr (Some brokenRules)).
  vm_compute. reflexivity.
Defined.

Lemma well_formed_rules_always_evaluate_witness :
  exists d,
    scoreOne quiet (readRules (Some (digestRules ["security fix"; "CVE"])))
    = Return d.
Proof.
  apply (well_formed_rules_always_evaluate quiet
           (Some (digestRules ["security fix"; "CVE"]))).
  intros p Hp. vm_compute in Hp.
  repeat (destruct Hp as [<-|Hp]; [vm_compute; reflexivity|]).
  destruct Hp.
Defined.

Lemma unreadable_threshold_adopts_on_strong_signal_only_witness :
  adopt highRecord = negb (String.eqb (strongHit highRecord) EmptyString).
Proof.
  apply (unreadable_threshold_adopts_on_strong_signal_only pr highRules
           highRecord {| threshold := VStr "high" |}).
  - vm_compute. reflexivity.
  - reflexivity.
  - vm_compute. reflexivity.
Defined.

Lemma strong_hit_is_a_matching_pattern_witness :
  strongHit (sampleRecord "CVE") = EmptyString
  \/ (In (strongHit (sampleRecord "CVE"))
         (default [] (patterns sampleSignals))
      /\ matches (strongHit (sampleRecord "CVE")) (combinedText pr) = true).
Proof.
  apply (strong_hit_is_a_matching_pattern pr sampleRules).
  - vm_compute. reflexivity.
  - reflexivity.
Defined.

Lemma compiled_map_keeps_entries_and_numbers_witness :
  Forall2 compiled
    [("CVE", VNum (Num 6)); ("escaping", VStr "high")]
    [ {| re := "CVE"; pattern := "CVE"; weight := Num 6 |};
      {| re := "escaping"; pattern := "escaping"; weight := Num 0 |} ]
  /\ Forall (fun r => weight r <> NaN)
       [ {| re := "CVE"; pattern := "CVE"; weight := Num 6 |};
         {| re := "escaping"; pattern := "escaping"; weight := Num 0 |} ].
Proof.
  apply (compiled_map_keeps_entries_and_numbers
           (Some [("CVE", VNum (Num 6)); ("escaping", VStr "high")])).
  vm_compute. reflexivity.
Defined.

Lemma compile_reports_first_malformed_key_witness :
  compileWeightedRegexMap
    (Some [("CVE", VNum (Num 6)); ("(", VNum (Num 5)); ("[", VNum (Num 1))])
  = Throw (SyntaxError "(").
Proof.
  apply (compile_reports_first_malformed_key _
           [("CVE", VNum (Num 6))] "(" (VNum (Num 5)) [("[", VNum (Num 1))]).
  - reflexivity.
  - intros q [<-|[]]. vm_compute. reflexivity.
  - vm_compute. reflexivity.
Defined.

Lemma label_order_only_reorders_the_hits_witness :
  exists d',
    scoreOne (withLabels ["docs"; "security"] pr) sampleRules = Return d'
    /\ strongHit d' = strongHit (sampleRecord "CVE")
    /\ tags d' = tags (sampleRecord "CVE")
    /\ Permutation (hits (sampleRecord "CVE")) (hits d').
Proof.
  apply (label_order_only_reorders_the_hits pr sampleRules).
  - vm_compute. reflexivity.
  - apply perm_swap.
Defined.

Lemma file_order_only_reorders_the_hits_witness :
  exists d',
    scoreOne (withFiles ["test/a_test.rb"; "lib/a.rb"; "lib/a.rb"] pr)
             sampleRules = Return d'
    /\ strongHit d' = strongHit (sampleRecord "CVE")
    /\ tags d' = tags (sampleRecord "CVE")
    /\ Permutation (hits (sampleRecord "CVE")) (hits d').
Proof.
  apply (file_order_only_reorders_the_hits pr sampleRules).
  - vm_compute. reflexivity.
  - apply perm_swap.
Defined.

Lemma main_discards_everything_on_a_failure_witness :
  main (Some (digestRules ["security fix"; "CVE"; "("])) ([pr] ++ quiet :: [pr])
  = Throw (SyntaxError "(").
Proof.
  apply (main_discards_everything_on_a_failure
           (Some (digestRules ["security fix"; "CVE"; "("])) [pr] quiet [pr]).
  - intros x [<-|[]]. exists (sampleRecord "CVE"). vm_compute. reflexivity.
  - vm_compute. reflexivity.
Defined.

Lemma main_has_picked_the_adopted_in_order_witness :
  exists ds,
    mapC (fun it => scoreOne it soundRules) [pr; quiet] = Return ds
    /\ [(pr, sampleRecord "CVE")]
       = List.filter (fun p => adopt (snd p)) (combine [pr; quiet] ds).
Proof.
  apply (main_has_picked_the_adopted_in_order
           (Some (digestRules ["security fix"; "CVE"])) [pr; quiet]).
  vm_compute. reflexivity.
Defined.

Lemma mdEscape_leaves_no_bare_pipe_witness :
  exists a', "a" +:+ String backslash EmptyString
             = a' +:+ String backslash EmptyString.
Proof.
  apply (mdEscape_leaves_no_bare_pipe (Some "a|b") _ "b").
  vm_compute. reflexivity.
Defined.

Lemma mdEscape_is_injective_witness : "a|b" = "a|b".
Proof.
  apply (mdEscape_is_injective "a|b" "a|b"). vm_compute. reflexivity.
Defined.

Lemma ymdFromIso_is_the_leading_date_witness :
  ymdFromIso ("2026-11-02" +:+ "T06:51:00.000Z") = "2026-11-02"
  /\ forall iso,
       String.length (ymdFromIso iso) = Nat.min 10 (String.length iso).
Proof.
  apply (ymdFromIso_is_the_leading_date "2026-11-02" "T06:51:00.000Z").
  reflexivity.
Defined.

Lemma getPRFiles_returns_at_most_300_names_witness :
  (length (repeat (JString "lib/a.rb") 100 ++ [JString "lib/b.rb"]) <= 300)%nat
  /\ Forall (fun j => truthy (Some j) = true)
       (repeat (JString "lib/a.rb") 100 ++ [JString "lib/b.rb"]).
Proof.
  apply (getPRFiles_returns_at_most_300_names twoPages (JNumber (Num 7))).
  - intros [|[|[|page]]] items Hitems; try discriminate;
      injection Hitems as <-; vm_compute; lia.
  - vm_compute. reflexivity.
Defined.

Lemma getPRFiles_stops_at_the_first_short_page_witness :
  getPRFiles twoPages (JNumber (Num 7)) =
  (map (filesUrl (JNumber (Num 7))) (seq 1 2),
   Done (flat_map pushed
           ([repeat (fileEntry "lib/a.rb") 100] ++ [shortPage]))).
Proof.
  apply (getPRFiles_stops_at_the_first_short_page twoPages (JNumber (Num 7))
           [repeat (fileEntry "lib/a.rb") 100] shortPage).
  - vm_compute. lia.
  - constructor; [split; [reflexivity | vm_compute; lia] | constructor].
  - reflexivity.
  - vm_compute. lia.
Defined.

Lemma getPRFiles_cuts_after_three_full_pages_witness :
  getPRFiles fullPages (JNumber (Num 7)) =
  ([ filesUrl (JNumber (Num 7)) 1; filesUrl (JNumber (Num 7)) 2;
     filesUrl (JNumber (Num 7)) 3 ],
   Done (pushed (repeat (fileEntry "lib/a.rb") 100)
         ++ pushed (repeat (fileEntry "lib/a.rb") 100)
         ++ pushed (repeat (fileEntry "lib/a.rb") 100))).
Proof.
  apply (getPRFiles_cuts_after_three_full_pages fullPages (JNumber (Num 7)));
    (split; [reflexivity | vm_compute; lia]).
Defined.

Lemma getPRFiles_fails_with_its_page_witness :
  getPRFiles secondFails (JNumber (Num 7)) =
  (map (filesUrl (JNumber (Num 7))) (seq 1 2),
   Failed (FetchFailed "GitHub API 500")).
Proof.
  apply (getPRFiles_fails_with_its_page secondFails (JNumber (Num 7))
           [repeat (fileEntry "lib/a.rb") 100]).
  - vm_compute. lia.
  - constructor; [split; [reflexivity | vm_compute; lia] | constructor].
  - reflexivity.
Defined.

Lemma getIssueLabels_returns_named_labels_witness :
  Forall (fun j => truthy (Some j) = true /\ j <> JString EmptyString)
         [JString "security"].
Proof.
  apply (getIssueLabels_returns_named_labels twoPages (JNumber (Num 7))).
  vm_compute. reflexivity.
Defined.

End OnMoreSamples.
